(** * sky/spot/recovery_strategy.py: launching, recovery and termination of
    spot clusters

    A shallow embedding of [StrategyExecutor] and its two subclasses.  The
    executor is sequential Python that talks to several collaborators
    (provisioning, the cluster registry, the job runtime, the signal
    handler).  Those calls are modelled by an oracle: for every collaborator
    function, the stream of answers it is still going to give.  A call takes
    the head of its stream, drops it, and records the call and its answer in
    a trace.  The methods of the executor are written in a state-and-exception
    monad over that world; [while True] loops take fuel. *)

From stdpp Require Import base numbers option list strings pretty gmap sets.

Local Open Scope Z_scope.
Local Open Scope string_scope.
Local Open Scope list_scope.

(** ** Exceptions *)

(** The Python exceptions the module raises or lets through.  [Exception msg]
    stands for any other [Exception] instance whose [str(e)] is [msg];
    [SignalRaised] is whatever [signal_handler] raises. *)
Inductive exn : Type :=
| AssertionError (msg : string)
| KeyError (key : string)
| IndexError (msg : string)
| AttributeError (msg : string)
| RuntimeError (msg : string)
| NotImplementedError
| ResourcesUnavailableError (msg : string)
| CommandError
| SignalRaised (name : string)
| Exception (msg : string).

#[global] Instance exn_eq_dec : EqDecision exn.
Proof. solve_decision. Defined.

(** ** Collaborator data *)

Module job_lib.
(** [job_lib.JobStatus]. *)
Inductive JobStatus : Type :=
| INIT | PENDING | SETTING_UP | RUNNING | SUCCEEDED | FAILED | FAILED_SETUP
| CANCELLED.
End job_lib.

Module global_user_state.
(** [global_user_state.ClusterStatus]. *)
Inductive ClusterStatus : Type := INIT | UP | STOPPED.
End global_user_state.

#[global] Instance JobStatus_eq_dec : EqDecision job_lib.JobStatus.
Proof. solve_decision. Defined.

#[global] Instance ClusterStatus_eq_dec :
  EqDecision global_user_state.ClusterStatus.
Proof. solve_decision. Defined.

(** [sky.Resources]: the fields this module reads or copies. *)
Record Resources : Type := mkResources {
  cloud : string;
  region : string;
  zone : string;
  spot_recovery : option string
}.

(** [resources.copy(spot_recovery=None)]. *)
Definition copy_without_spot_recovery (r : Resources) : Resources :=
  {| cloud := cloud r; region := region r; zone := zone r;
     spot_recovery := None |}.

(** [task_lib.Task]: its resources, enumerated ([list(task.resources)]). *)
Record Task : Type := mkTask {
  task_name : string;
  resources : list Resources
}.

(** [task.set_resources(rs)]. *)
Definition set_resources (rs : list Resources) (t : Task) : Task :=
  {| task_name := task_name t; resources := rs |}.

(** A cluster handle of the backend; only [launched_resources] is read. *)
Record ResourceHandle : Type := mkHandle {
  launched_resources : Resources
}.

(** ** The strategy registry *)

Inductive strategy_class : Type :=
| FailoverStrategyExecutor
| CrossRegion.

#[global] Instance strategy_class_eq_dec : EqDecision strategy_class.
Proof. solve_decision. Defined.

(** The two module globals [SPOT_STRATEGIES] and [SPOT_DEFAULT_STRATEGY]. *)
Record registry : Type := mkRegistry {
  strategies : gmap string strategy_class;
  default_strategy : option string
}.

Definition empty_registry : registry :=
  {| strategies := ∅; default_strategy := None |}.

(** [StrategyExecutor.__init_subclass__(cls, name, default)]. *)
Definition __init_subclass__ (cls : strategy_class) (name : string)
    (default : bool) (g : registry) : exn + registry :=
  let strategies' := <[name := cls]> (strategies g) in
  if default then
    match default_strategy g with
    | None => inr {| strategies := strategies'; default_strategy := Some name |}
    | Some _ => inl (AssertionError "Only one strategy can be default.")
    end
  else inr {| strategies := strategies';
              default_strategy := default_strategy g |}.

(** The registry once the module is loaded: the two class statements, in
    source order. *)
Definition loaded_registry : exn + registry :=
  match __init_subclass__ FailoverStrategyExecutor "FAILOVER" true
          empty_registry with
  | inl e => inl e
  | inr g => __init_subclass__ CrossRegion "CROSS_REGION" false g
  end.

Definition SPOT_STRATEGIES : gmap string strategy_class :=
  match loaded_registry with
  | inr g => strategies g
  | inl _ => ∅
  end.

Definition SPOT_DEFAULT_STRATEGY : option string :=
  match loaded_registry with
  | inr g => default_strategy g
  | inl _ => None
  end.

(** ** The executor object *)

(** The fields [__init__] sets.  [backend] and [signal_handler] are
    collaborators and live in the oracle; the dag holds the one task that
    [__init__] adds. *)
Record StrategyExecutor : Type := mkExecutor {
  strategy : strategy_class;
  dag : list Task;
  cluster_name : string;
  retry_until_up : bool;
  _job_id : Z;
  _blocked_regions : gset string;
  _blocked_zones : gset string
}.

(** [StrategyExecutor.RETRY_INIT_GAP_SECONDS]. *)
Definition RETRY_INIT_GAP_SECONDS : Z := 60.

(** [_MAX_RETRY_CNT] of both subclasses (used in a message only). *)
Definition _MAX_RETRY_CNT : Z := 240.

(** [StrategyExecutor.__init__]. *)
Definition __init__ (cls : strategy_class) (cluster_name : string)
    (task : Task) (retry_until_up : bool) (job_id : Z) : StrategyExecutor :=
  {| strategy := cls;
     dag := [task];
     cluster_name := cluster_name;
     retry_until_up := retry_until_up;
     _job_id := job_id;
     _blocked_regions := ∅;
     _blocked_zones := ∅ |}.

(** [StrategyExecutor.make].  The task object is mutated by [set_resources]
    and the executor's dag holds that same object, so the updated task is
    the one inside the returned executor. *)
Definition make (cluster_name : string) (task : Task) (retry_until_up : bool)
    (job_id : Z) : exn + StrategyExecutor :=
  let rs := resources task in
  if negb (length rs =? 1)%nat then
    inl (AssertionError "Only one resource is supported.")
  else
    match rs with
    | [] => inl (IndexError "list index out of range")
    | r :: _ =>
      match spot_recovery r with
      | None =>
        inl (AssertionError "spot_recovery is required to use spot strategy.")
      | Some name =>
        let task' := set_resources [copy_without_spot_recovery r] task in
        match SPOT_STRATEGIES !! name with
        | None => inl (KeyError name)
        | Some cls =>
          inr (__init__ cls cluster_name task' retry_until_up job_id)
        end
      end
    end.

(** ** The world: collaborators, process environment, trace *)

(** For every collaborator function, the answers its next calls will give
    (index 0 is the next call).  A raised exception is part of the answer. *)
Record Oracle : Type := mkOracle {
  (** [self.signal_handler()]: [Some e] when it raises [e]. *)
  signal_handler_next : nat → option exn;
  (** [sky.launch(...)]: [Some msg] when it raises an [Exception] whose
      [str(e)] is [msg]. *)
  sky_launch_next : nat → option string;
  (** [global_user_state.get_cluster_from_name]: the record's
      [num_tried_locations], or no record. *)
  get_cluster_from_name_next : nat → option Z;
  (** [backend_utils.refresh_cluster_status_handle]: the status read. *)
  refresh_cluster_status_handle_next :
    nat → exn + option global_user_state.ClusterStatus;
  (** [spot_utils.get_job_status]. *)
  get_job_status_next : nat → exn + option job_lib.JobStatus;
  (** [spot_utils.get_job_timestamp(..., get_end_time=False)]. *)
  get_job_timestamp_next : nat → exn + Z;
  (** [global_user_state.get_handle_from_cluster_name]. *)
  get_handle_from_cluster_name_next : nat → option ResourceHandle;
  (** [backend.teardown(handle, terminate=True)]. *)
  teardown_next : nat → bool;
  (** [backend.cancel_jobs(handle, jobs=None)]: [Some e] when it raises. *)
  cancel_jobs_next : nat → option exn
}.

(** What the executor did to the outside, in order, with the answers. *)
Inductive event : Type :=
| EvSignal (r : option exn)
| EvLaunch (blocked_regions blocked_zones : gset string) (r : option string)
| EvGetCluster (r : option Z)
| EvUpdateTried (job_id n : Z)
| EvRefresh (r : exn + option global_user_state.ClusterStatus)
| EvJobStatus (r : exn + option job_lib.JobStatus)
| EvJobTimestamp (r : exn + Z)
| EvGetHandle (r : option ResourceHandle)
| EvTeardown (h : ResourceHandle) (r : bool)
| EvCancelJobs (h : option ResourceHandle) (r : option exn)
| EvBackoff (gap : Z)
| EvSleep (seconds : Z).

Record World : Type := mkWorld {
  self : StrategyExecutor;
  environ : gmap string string;
  oracle : Oracle;
  trace : list event
}.

(** ** The monad *)

Inductive result (A : Type) : Type :=
| Ret (a : A)
| Raise (e : exn)
| Diverge.
Arguments Ret {A} a.
Arguments Raise {A} e.
Arguments Diverge {A}.

Definition M (A : Type) : Type := World → result A * World.

#[global] Instance M_ret : MRet M := λ A a w, (Ret a, w).

#[global] Instance M_bind : MBind M := λ A B f m w,
  match m w with
  | (Ret a, w') => f a w'
  | (Raise e, w') => (Raise e, w')
  | (Diverge, w') => (Diverge, w')
  end.

Definition raise {A : Type} (e : exn) : M A := λ w, (Raise e, w).

Definition diverge {A : Type} : M A := λ w, (Diverge, w).

(** [try: m except Exception as e: ...]: the exception becomes a value. *)
Definition try {A : Type} (m : M A) : M (exn + A) := λ w,
  match m w with
  | (Ret a, w') => (Ret (inr a), w')
  | (Raise e, w') => (Ret (inl e), w')
  | (Diverge, w') => (Diverge, w')
  end.

Definition get_self : M StrategyExecutor := λ w, (Ret (self w), w).

Definition modify_self (f : StrategyExecutor → StrategyExecutor) : M unit :=
  λ w, (Ret tt, {| self := f (self w); environ := environ w;
                   oracle := oracle w; trace := trace w |}).

(** [os.environ.get(name)]. *)
Definition os_environ_get (name : string) : M (option string) :=
  λ w, (Ret (environ w !! name), w).

(** One collaborator call: read the next answer, drop it, log the event. *)
Definition call {A : Type} (next : Oracle → A) (rest : Oracle → Oracle)
    (ev : A → event) : M A := λ w,
  let a := next (oracle w) in
  (Ret a, {| self := self w; environ := environ w;
             oracle := rest (oracle w); trace := trace w ++ [ev a] |}).

(** An effect that asks nothing of the oracle. *)
Definition emit (ev : event) : M unit := λ w,
  (Ret tt, {| self := self w; environ := environ w; oracle := oracle w;
              trace := trace w ++ [ev] |}).

(** [raise e] when the answer carries an exception. *)
Definition rethrow {A : Type} (r : exn + A) : M A :=
  match r with
  | inl e => raise e
  | inr a => mret a
  end.

Definition tl_stream {A : Type} (s : nat → A) : nat → A := λ n, s (S n).

Definition after_signal_handler (o : Oracle) : Oracle :=
  {| signal_handler_next := tl_stream (signal_handler_next o);
     sky_launch_next := sky_launch_next o;
     get_cluster_from_name_next := get_cluster_from_name_next o;
     refresh_cluster_status_handle_next := refresh_cluster_status_handle_next o;
     get_job_status_next := get_job_status_next o;
     get_job_timestamp_next := get_job_timestamp_next o;
     get_handle_from_cluster_name_next := get_handle_from_cluster_name_next o;
     teardown_next := teardown_next o;
     cancel_jobs_next := cancel_jobs_next o |}.

Definition after_sky_launch (o : Oracle) : Oracle :=
  {| signal_handler_next := signal_handler_next o;
     sky_launch_next := tl_stream (sky_launch_next o);
     get_cluster_from_name_next := get_cluster_from_name_next o;
     refresh_cluster_status_handle_next := refresh_cluster_status_handle_next o;
     get_job_status_next := get_job_status_next o;
     get_job_timestamp_next := get_job_timestamp_next o;
     get_handle_from_cluster_name_next := get_handle_from_cluster_name_next o;
     teardown_next := teardown_next o;
     cancel_jobs_next := cancel_jobs_next o |}.

Definition after_get_cluster_from_name (o : Oracle) : Oracle :=
  {| signal_handler_next := signal_handler_next o;
     sky_launch_next := sky_launch_next o;
     get_cluster_from_name_next := tl_stream (get_cluster_from_name_next o);
     refresh_cluster_status_handle_next := refresh_cluster_status_handle_next o;
     get_job_status_next := get_job_status_next o;
     get_job_timestamp_next := get_job_timestamp_next o;
     get_handle_from_cluster_name_next := get_handle_from_cluster_name_next o;
     teardown_next := teardown_next o;
     cancel_jobs_next := cancel_jobs_next o |}.

Definition after_refresh_cluster_status_handle (o : Oracle) : Oracle :=
  {| signal_handler_next := signal_handler_next o;
     sky_launch_next := sky_launch_next o;
     get_cluster_from_name_next := get_cluster_from_name_next o;
     refresh_cluster_status_handle_next :=
       tl_stream (refresh_cluster_status_handle_next o);
     get_job_status_next := get_job_status_next o;
     get_job_timestamp_next := get_job_timestamp_next o;
     get_handle_from_cluster_name_next := get_handle_from_cluster_name_next o;
     teardown_next := teardown_next o;
     cancel_jobs_next := cancel_jobs_next o |}.

Definition after_get_job_status (o : Oracle) : Oracle :=
  {| signal_handler_next := signal_handler_next o;
     sky_launch_next := sky_launch_next o;
     get_cluster_from_name_next := get_cluster_from_name_next o;
     refresh_cluster_status_handle_next := refresh_cluster_status_handle_next o;
     get_job_status_next := tl_stream (get_job_status_next o);
     get_job_timestamp_next := get_job_timestamp_next o;
     get_handle_from_cluster_name_next := get_handle_from_cluster_name_next o;
     teardown_next := teardown_next o;
     cancel_jobs_next := cancel_jobs_next o |}.

Definition after_get_job_timestamp (o : Oracle) : Oracle :=
  {| signal_handler_next := signal_handler_next o;
     sky_launch_next := sky_launch_next o;
     get_cluster_from_name_next := get_cluster_from_name_next o;
     refresh_cluster_status_handle_next := refresh_cluster_status_handle_next o;
     get_job_status_next := get_job_status_next o;
     get_job_timestamp_next := tl_stream (get_job_timestamp_next o);
     get_handle_from_cluster_name_next := get_handle_from_cluster_name_next o;
     teardown_next := teardown_next o;
     cancel_jobs_next := cancel_jobs_next o |}.

Definition after_get_handle_from_cluster_name (o : Oracle) : Oracle :=
  {| signal_handler_next := signal_handler_next o;
     sky_launch_next := sky_launch_next o;
     get_cluster_from_name_next := get_cluster_from_name_next o;
     refresh_cluster_status_handle_next := refresh_cluster_status_handle_next o;
     get_job_status_next := get_job_status_next o;
     get_job_timestamp_next := get_job_timestamp_next o;
     get_handle_from_cluster_name_next :=
       tl_stream (get_handle_from_cluster_name_next o);
     teardown_next := teardown_next o;
     cancel_jobs_next := cancel_jobs_next o |}.

Definition after_teardown (o : Oracle) : Oracle :=
  {| signal_handler_next := signal_handler_next o;
     sky_launch_next := sky_launch_next o;
     get_cluster_from_name_next := get_cluster_from_name_next o;
     refresh_cluster_status_handle_next := refresh_cluster_status_handle_next o;
     get_job_status_next := get_job_status_next o;
     get_job_timestamp_next := get_job_timestamp_next o;
     get_handle_from_cluster_name_next := get_handle_from_cluster_name_next o;
     teardown_next := tl_stream (teardown_next o);
     cancel_jobs_next := cancel_jobs_next o |}.

Definition after_cancel_jobs (o : Oracle) : Oracle :=
  {| signal_handler_next := signal_handler_next o;
     sky_launch_next := sky_launch_next o;
     get_cluster_from_name_next := get_cluster_from_name_next o;
     refresh_cluster_status_handle_next := refresh_cluster_status_handle_next o;
     get_job_status_next := get_job_status_next o;
     get_job_timestamp_next := get_job_timestamp_next o;
     get_handle_from_cluster_name_next := get_handle_from_cluster_name_next o;
     teardown_next := teardown_next o;
     cancel_jobs_next := tl_stream (cancel_jobs_next o) |}.

(** ** Collaborator calls *)

Definition signal_handler : M unit :=
  r ← call (λ o, signal_handler_next o 0%nat) after_signal_handler EvSignal;
  match r with
  | Some e => raise e
  | None => mret tt
  end.

(** [sky.launch(dag, cluster_name, detach_run=True, blocked_regions=...,
    blocked_zones=...)], given the two sets of the executor at the call. *)
Definition sky_launch : M unit :=
  s ← get_self;
  r ← call (λ o, sky_launch_next o 0%nat) after_sky_launch
        (EvLaunch (_blocked_regions s) (_blocked_zones s));
  match r with
  | Some msg => raise (Exception msg)
  | None => mret tt
  end.

Definition get_cluster_from_name : M (option Z) :=
  call (λ o, get_cluster_from_name_next o 0%nat) after_get_cluster_from_name
    EvGetCluster.

Definition update_num_tried_locations (n : Z) : M unit :=
  s ← get_self;
  emit (EvUpdateTried (_job_id s) n).

Definition refresh_cluster_status_handle :
    M (option global_user_state.ClusterStatus) :=
  r ← call (λ o, refresh_cluster_status_handle_next o 0%nat)
        after_refresh_cluster_status_handle EvRefresh;
  rethrow r.

Definition get_job_status : M (option job_lib.JobStatus) :=
  r ← call (λ o, get_job_status_next o 0%nat) after_get_job_status
        EvJobStatus;
  rethrow r.

Definition get_job_timestamp : M Z :=
  r ← call (λ o, get_job_timestamp_next o 0%nat) after_get_job_timestamp
        EvJobTimestamp;
  rethrow r.

Definition get_handle_from_cluster_name : M (option ResourceHandle) :=
  call (λ o, get_handle_from_cluster_name_next o 0%nat)
    after_get_handle_from_cluster_name EvGetHandle.

Definition teardown (handle : ResourceHandle) : M bool :=
  call (λ o, teardown_next o 0%nat) after_teardown (EvTeardown handle).

Definition cancel_jobs (handle : option ResourceHandle) : M unit :=
  r ← call (λ o, cancel_jobs_next o 0%nat) after_cancel_jobs
        (EvCancelJobs handle);
  match r with
  | Some e => raise e
  | None => mret tt
  end.

(** [time.sleep(seconds)]. *)
Definition sleep (seconds : Z) : M unit := emit (EvSleep seconds).

(** ** Parts of the repository that this module imports *)

(** [common_utils.Backoff]: an object built from an initial gap, whose
    [current_backoff()] advances it and returns the next gap in seconds. *)
Class BackoffOps : Type := {
  Backoff : Type;
  Backoff_init : Z → Backoff;
  current_backoff : Backoff → Z * Backoff
}.

(** The two constants read from [spot_utils]. *)
Class SpotUtils : Type := {
  MAX_JOB_CHECKING_RETRY : Z;
  JOB_STARTED_STATUS_CHECK_GAP_SECONDS : Z
}.

(** The first [n] gaps an object hands out. *)
Fixpoint backoff_gaps `{BackoffOps} (n : nat) (b : Backoff) : list Z :=
  match n with
  | O => []
  | S n => let '(gap, b') := current_backoff b in gap :: backoff_gaps n b'
  end.

(** ** Strings *)

(** [needle in hay] on Python strings. *)
Fixpoint str_contains (needle hay : string) : bool :=
  String.prefix needle hay ||
  match hay with
  | EmptyString => false
  | String _ hay' => str_contains needle hay'
  end.

Definition EXHAUSTED_MESSAGE : string :=
  "Failed to provision all possible launchable resources".

(** ** Methods of [StrategyExecutor] *)

Definition add_blocked_zone (z : string) : M unit :=
  modify_self (λ s,
    {| strategy := strategy s; dag := dag s; cluster_name := cluster_name s;
       retry_until_up := retry_until_up s; _job_id := _job_id s;
       _blocked_regions := _blocked_regions s;
       _blocked_zones := _blocked_zones s ∪ {[z]} |}).

Definition add_blocked_region (r : string) : M unit :=
  modify_self (λ s,
    {| strategy := strategy s; dag := dag s; cluster_name := cluster_name s;
       retry_until_up := retry_until_up s; _job_id := _job_id s;
       _blocked_regions := _blocked_regions s ∪ {[r]};
       _blocked_zones := _blocked_zones s |}).

(** [self._blocked_regions.clear(); self._blocked_zones.clear()]. *)
Definition clear_blocked : M unit :=
  modify_self (λ s,
    {| strategy := strategy s; dag := dag s; cluster_name := cluster_name s;
       retry_until_up := retry_until_up s; _job_id := _job_id s;
       _blocked_regions := ∅;
       _blocked_zones := ∅ |}).

(** The message of the error [terminate_cluster] raises. *)
Definition terminate_failed_message (s : StrategyExecutor) : string :=
  "Failed to terminate the spot cluster " +:+ cluster_name s +:+ ".".

(** The loop of [terminate_cluster]; [retry_cnt] is the local variable. *)
Fixpoint teardown_loop (fuel : nat) (handle : ResourceHandle)
    (max_retry retry_cnt : Z) : M unit :=
  match fuel with
  | O => diverge
  | S fuel =>
    success ← teardown handle;
    if success : bool then mret tt
    else
      let retry_cnt := retry_cnt + 1 in
      if bool_decide (max_retry ≤ retry_cnt)%Z then
        s ← get_self;
        raise (RuntimeError (terminate_failed_message s))
      else teardown_loop fuel handle max_retry retry_cnt
  end.

(** [StrategyExecutor.terminate_cluster(max_retry)].  The loop makes at most
    [max 1 max_retry] rounds, which is the fuel it gets. *)
Definition terminate_cluster (max_retry : Z) : M unit :=
  handle ← get_handle_from_cluster_name;
  match handle with
  | None => mret tt
  | Some handle =>
    teardown_loop (Z.to_nat (Z.max 1 max_retry)) handle max_retry 0
  end.

(** How the job-checking loop of [_launch] is left: by [return launch_time]
    inside it, or by falling out of it with the flag [retry_launch]. *)
Inductive loop_exit : Type :=
| Returned (launch_time : Z)
| Left (retry_launch : bool).

Definition job_not_started (status : option job_lib.JobStatus) : bool :=
  match status with
  | None => true
  | Some job_lib.INIT | Some job_lib.PENDING => true
  | Some _ => false
  end.

(** [max_retry is not None and retry_cnt >= max_retry]. *)
Definition max_retry_reached (max_retry : option Z) (retry_cnt : Z) : bool :=
  match max_retry with
  | Some m => bool_decide (m ≤ retry_cnt)%Z
  | None => false
  end.

(** The message of the error [_launch] raises; it is only built when
    [max_retry] is not [None]. *)
Definition launch_failed_message (max_retry : option Z) : string :=
  "Failed to launch the spot cluster after "
    +:+ pretty (default 0 max_retry) +:+ " retries.".

Section Executor.
Context `{BackoffOps} `{SpotUtils}.

(** The inner [while] of [_launch] with its local variables [status] and
    [job_checking_retry_cnt]. *)
Fixpoint job_check_loop (fuel : nat) (status : option job_lib.JobStatus)
    (job_checking_retry_cnt : Z) : M loop_exit :=
  if job_not_started status
     && bool_decide (job_checking_retry_cnt < MAX_JOB_CHECKING_RETRY)%Z then
    match fuel with
    | O => diverge
    | S fuel =>
      let job_checking_retry_cnt := job_checking_retry_cnt + 1 in
      r ← try refresh_cluster_status_handle;
      match r with
      | inl _ => mret (Left true)
      | inr cluster_status =>
        if bool_decide (cluster_status ≠ Some global_user_state.UP) then
          mret (Left true)
        else
          sleep JOB_STARTED_STATUS_CHECK_GAP_SECONDS;;
          r ← try (status ← get_job_status;
                   match status with
                   | Some _ =>
                     launch_time ← get_job_timestamp;
                     mret (Some launch_time, status)
                   | None => mret (None, status)
                   end);
          match r with
          | inl _ => mret (Left true)
          | inr (Some launch_time, _) => mret (Returned launch_time)
          | inr (None, status) =>
            job_check_loop fuel status job_checking_retry_cnt
          end
      end
    end
  else mret (Left false).

(** The outer [while True] of [_launch] with its local variables [retry_cnt]
    and [backoff]. *)
Fixpoint launch_loop (fuel : nat) (max_retry : option Z)
    (raise_on_failure : bool) (retry_cnt : Z) (backoff : Backoff) :
    M (option Z) :=
  match fuel with
  | O => diverge
  | S fuel =>
    let retry_cnt := retry_cnt + 1 in
    signal_handler;;
    r ← try sky_launch;
    match r with
    | inl (Exception msg) =>
      (if str_contains EXHAUSTED_MESSAGE msg then clear_blocked
       else mret tt);;
      if max_retry_reached max_retry retry_cnt then
        if raise_on_failure then
          raise (ResourcesUnavailableError (launch_failed_message max_retry))
        else mret None
      else
        let '(gap_seconds, backoff) := current_backoff backoff in
        emit (EvBackoff gap_seconds);;
        sleep gap_seconds;;
        launch_loop fuel max_retry raise_on_failure retry_cnt backoff
    | inl e => raise e
    | inr _ =>
      record ← get_cluster_from_name;
      match record with
      | Some num_tried_locations =>
        update_num_tried_locations num_tried_locations
      | None => mret tt
      end;;
      out ← job_check_loop (Z.to_nat MAX_JOB_CHECKING_RETRY) None 0;
      match out with
      | Returned launch_time => mret (Some launch_time)
      | Left true =>
        let '(gap_seconds, backoff) := current_backoff backoff in
        emit (EvBackoff gap_seconds);;
        sleep gap_seconds;;
        launch_loop fuel max_retry raise_on_failure retry_cnt backoff
      | Left false => mret None
      end
    end
  end.

(** [StrategyExecutor._launch(max_retry, raise_on_failure)]. *)
Definition _launch (fuel : nat) (max_retry : option Z)
    (raise_on_failure : bool) : M (option Z) :=
  launch_loop fuel max_retry raise_on_failure 0
    (Backoff_init RETRY_INIT_GAP_SECONDS).

(** [StrategyExecutor.launch()]. *)
Definition launch (fuel : nat) : M (option Z) :=
  s ← get_self;
  if retry_until_up s then _launch fuel None true
  else _launch fuel (Some 3) true.

End Executor.

(** ** The two strategies *)

(** The null dereference of [handle.launched_resources]. *)
Definition NONE_HAS_NO_LAUNCHED_RESOURCES : string :=
  "'NoneType' object has no attribute 'launched_resources'".

(** [handle.launched_resources] on a handle that may be [None]. *)
Definition get_launched_resources (handle : option ResourceHandle) :
    M Resources :=
  match handle with
  | Some handle => mret (launched_resources handle)
  | None =>
    raise (AttributeError NONE_HAS_NO_LAUNCHED_RESOURCES)
  end.

(** Step 1 of both [recover] methods: [cancel_jobs] inside
    [try ... except exceptions.CommandError]. *)
Definition cancel_jobs_step (handle : option ResourceHandle) : M unit :=
  r ← try (cancel_jobs handle);
  match r with
  | inl CommandError => mret tt
  | inl e => raise e
  | inr _ => mret tt
  end.

Definition recover_failed_message : string :=
  "Failed to recover the spot cluster after retrying "
    +:+ pretty _MAX_RETRY_CNT +:+ " times.".

Section Recovery.
Context `{BackoffOps} `{SpotUtils}.

(** The [while True] of [FailoverStrategyExecutor.recover]; [handle] is the
    local variable, reassigned when [_launch] gives [None]. *)
Fixpoint failover_loop (fuel : nat) (handle : option ResourceHandle) : M Z :=
  match fuel with
  | O => diverge
  | S fuel =>
    s ← get_self;
    task ← match dag s with
           | task :: _ => mret task
           | [] => raise (IndexError "list index out of range")
           end;
    _ ← match resources task with
        | r :: _ => mret r
        | [] => raise (IndexError "list index out of range")
        end;
    _ ← get_launched_resources handle;
    terminate_cluster 3;;
    launched_time ← _launch fuel (Some 3) false;
    match launched_time with
    | None =>
      handle ← get_handle_from_cluster_name;
      match handle with
      | Some h => add_blocked_zone (zone (launched_resources h))
      | None => mret tt
      end;;
      s ← get_self;
      if retry_until_up s then
        sleep RETRY_INIT_GAP_SECONDS;;
        failover_loop fuel handle
      else raise (ResourcesUnavailableError recover_failed_message)
    | Some launched_time => mret launched_time
    end
  end.

(** [FailoverStrategyExecutor.recover()]. *)
Definition recover_failover (fuel : nat) : M Z :=
  handle ← get_handle_from_cluster_name;
  cancel_jobs_step handle;;
  launched ← get_launched_resources handle;
  add_blocked_zone (zone launched);;
  failover_loop fuel handle.

(** The [while True] of [CrossRegion.recover]. *)
Fixpoint cross_region_loop (fuel : nat) : M Z :=
  match fuel with
  | O => diverge
  | S fuel =>
    terminate_cluster 3;;
    launched_time ← _launch fuel (Some 3) false;
    match launched_time with
    | None =>
      handle ← get_handle_from_cluster_name;
      match handle with
      | Some h =>
        add_blocked_region (region (launched_resources h));;
        add_blocked_zone (zone (launched_resources h))
      | None => mret tt
      end;;
      s ← get_self;
      if retry_until_up s then
        sleep RETRY_INIT_GAP_SECONDS;;
        cross_region_loop fuel
      else raise (ResourcesUnavailableError recover_failed_message)
    | Some launched_time => mret launched_time
    end
  end.

(** [CrossRegion.recover()]. *)
Definition recover_cross_region (fuel : nat) : M Z :=
  handle ← get_handle_from_cluster_name;
  cancel_jobs_step handle;;
  launched ← get_launched_resources handle;
  add_blocked_zone (zone launched);;
  flag ← os_environ_get "_CROSS_REGION";
  match flag with
  | Some _ =>
    launched ← get_launched_resources handle;
    add_blocked_region (region launched)
  | None => mret tt
  end;;
  cross_region_loop fuel.

(** [self.recover()], dispatched on the class of the executor. *)
Definition recover (fuel : nat) : M Z :=
  s ← get_self;
  match strategy s with
  | FailoverStrategyExecutor => recover_failover fuel
  | CrossRegion => recover_cross_region fuel
  end.

(** The public operations of an executor. *)
Inductive operation : Type :=
| OpLaunch
| OpRecover
| OpTerminateCluster (max_retry : Z)
| OpLaunchImpl (max_retry : option Z) (raise_on_failure : bool).

Definition run_operation (fuel : nat) (op : operation) : M unit :=
  match op with
  | OpLaunch => launch fuel;; mret tt
  | OpRecover => recover fuel;; mret tt
  | OpTerminateCluster max_retry => terminate_cluster max_retry
  | OpLaunchImpl max_retry raise_on_failure =>
    _launch fuel max_retry raise_on_failure;; mret tt
  end.

End Recovery.

(** ** Sample worlds for concrete runs *)

(** Modelled from the spec: [common_utils.Backoff] is not under src/.  The
    delay starts at the configured base and grows multiplicatively (here it
    doubles) on successive calls, capped (here at 16 times the base). *)
Record doubling_state : Type := mkDoubling {
  base_gap : Z;
  next_gap : Z
}.

Definition doubling_current_backoff (b : doubling_state) :
    Z * doubling_state :=
  (next_gap b,
   {| base_gap := base_gap b;
      next_gap := Z.min (2 * next_gap b) (16 * base_gap b) |}).

Definition doubling_backoff : BackoffOps := {|
  Backoff := doubling_state;
  Backoff_init := λ base, {| base_gap := base; next_gap := base |};
  current_backoff := doubling_current_backoff
|}.

(** Values for the two constants of [spot_utils] in concrete runs; the
    theorems hold for every value. *)
Definition sample_spot_utils : SpotUtils := {|
  MAX_JOB_CHECKING_RETRY := 10;
  JOB_STARTED_STATUS_CHECK_GAP_SECONDS := 5
|}.

Definition quiet_oracle : Oracle :=
  {| signal_handler_next := λ _, None;
     sky_launch_next := λ _, None;
     get_cluster_from_name_next := λ _, None;
     refresh_cluster_status_handle_next :=
       λ _, inr (Some global_user_state.UP);
     get_job_status_next := λ _, inr None;
     get_job_timestamp_next := λ _, inr 1000;
     get_handle_from_cluster_name_next := λ _, None;
     teardown_next := λ _, true;
     cancel_jobs_next := λ _, None |}.

Definition sample_resources : Resources :=
  {| cloud := "gcp"; region := "us-central1"; zone := "us-central1-a";
     spot_recovery := Some "FAILOVER" |}.

Definition sample_task : Task :=
  {| task_name := "train"; resources := [sample_resources] |}.

Definition sample_handle : ResourceHandle :=
  {| launched_resources := copy_without_spot_recovery sample_resources |}.

Definition sample_executor (cls : strategy_class) (until_up : bool) :
    StrategyExecutor :=
  __init__ cls "spot-1"
    (set_resources [copy_without_spot_recovery sample_resources] sample_task)
    until_up 7.

Definition world_of (s : StrategyExecutor) (o : Oracle) : World :=
  {| self := s; environ := ∅; oracle := o; trace := [] |}.

(** ** Reading a trace *)

(** The events of one quiet round of the job-checking loop: the cluster is
    UP and the job has no status yet. *)
Definition poll_round `{SpotUtils} : list event :=
  [EvRefresh (inr (Some global_user_state.UP));
   EvSleep JOB_STARTED_STATUS_CHECK_GAP_SECONDS;
   EvJobStatus (inr None)].

(** The events of reading the cluster record after a launch. *)
Definition record_events (job_id : Z) (record : option Z) : list event :=
  match record with
  | Some n => [EvGetCluster (Some n); EvUpdateTried job_id n]
  | None => [EvGetCluster None]
  end.

Definition ends_with (suffix evs : list event) : Prop :=
  ∃ pre, evs = pre ++ suffix.


(** The events the job-checking loop can produce. *)
Definition poll_event (e : event) : bool :=
  match e with
  | EvRefresh _ | EvSleep _ | EvJobStatus _ | EvJobTimestamp _ => true
  | _ => false
  end.

(** Every [sky.launch] call comes right after a signal check that passed;
    [armed] tells whether the previous event was such a check. *)
Fixpoint signal_guarded (armed : bool) (evs : list event) : Prop :=
  match evs with
  | [] => True
  | EvSignal None :: evs => signal_guarded true evs
  | EvLaunch _ _ _ :: evs => armed = true ∧ signal_guarded false evs
  | _ :: evs => signal_guarded false evs
  end.

(** A signal check that raises [e] is the last event, and [e] is the
    outcome. *)
Fixpoint signal_propagates {A : Type} (r : result A) (evs : list event) :
    Prop :=
  match evs with
  | [] => True
  | EvSignal (Some e) :: evs => evs = [] ∧ r = Raise e
  | _ :: evs => signal_propagates r evs
  end.

(** Number of [sky.launch] calls. *)
Fixpoint count_launches (evs : list event) : nat :=
  match evs with
  | [] => 0
  | EvLaunch _ _ _ :: evs => S (count_launches evs)
  | _ :: evs => count_launches evs
  end.

(** The blocked sets given to the first [sky.launch] call. *)
Fixpoint first_launch (evs : list event) :
    option (gset string * gset string) :=
  match evs with
  | [] => None
  | EvLaunch blocked_regions blocked_zones _ :: _ =>
    Some (blocked_regions, blocked_zones)
  | _ :: evs => first_launch evs
  end.

(** The gaps drawn from [Backoff] objects, in order. *)
Fixpoint gaps_of (evs : list event) : list Z :=
  match evs with
  | [] => []
  | EvBackoff gap :: evs => gap :: gaps_of evs
  | _ :: evs => gaps_of evs
  end.

(** Every gap drawn is slept right away. *)
Fixpoint gaps_slept (evs : list event) : Prop :=
  match evs with
  | [] => True
  | EvBackoff gap :: evs =>
    match evs with
    | EvSleep seconds :: _ => seconds = gap
    | _ => False
    end ∧ gaps_slept evs
  | _ :: evs => gaps_slept evs
  end.

(** Whether a provisioning answer is the total-exhaustion failure. *)
Definition exhausted (r : option string) : bool :=
  match r with
  | Some msg => str_contains EXHAUSTED_MESSAGE msg
  | None => false
  end.

(** Some provisioning failure in the trace signalled total exhaustion. *)
Fixpoint exhaustion_signalled (evs : list event) : bool :=
  match evs with
  | [] => false
  | EvLaunch _ _ r :: evs => exhausted r || exhaustion_signalled evs
  | _ :: evs => exhaustion_signalled evs
  end.

(** The blocked sets during [_launch], read off the trace: every
    [sky.launch] is given the current pair, and the pair changes only at an
    exhaustion failure, to the two empty sets. *)
Fixpoint blocked_after (evs : list event) (b : gset string * gset string) :
    gset string * gset string :=
  match evs with
  | [] => b
  | EvLaunch _ _ r :: evs =>
    blocked_after evs (if exhausted r then (∅, ∅) else b)
  | _ :: evs => blocked_after evs b
  end.

Fixpoint launches_given (evs : list event) (b : gset string * gset string) :
    Prop :=
  match evs with
  | [] => True
  | EvLaunch blocked_regions blocked_zones r :: evs =>
    (blocked_regions, blocked_zones) = b
    ∧ launches_given evs (if exhausted r then (∅, ∅) else b)
  | _ :: evs => launches_given evs b
  end.

Definition blocked (s : StrategyExecutor) : gset string * gset string :=
  (_blocked_regions s, _blocked_zones s).

(** The cluster is lost after every launch: no signal, provisioning
    succeeds, and the status refresh never reports UP. *)
Definition always_preempted (o : Oracle) : Prop :=
  (∀ n, signal_handler_next o n = None)
  ∧ (∀ n, sky_launch_next o n = None)
  ∧ (∀ n, refresh_cluster_status_handle_next o n
          ≠ inr (Some global_user_state.UP)).

(** Provisioning fails on every attempt and no signal arrives. *)
Definition never_provisioned (o : Oracle) : Prop :=
  (∀ n, signal_handler_next o n = None)
  ∧ (∀ n, ∃ msg, sky_launch_next o n = Some msg).

(** Sample oracles. *)
Definition preempted_oracle : Oracle :=
  {| signal_handler_next := λ _, None;
     sky_launch_next := λ _, None;
     get_cluster_from_name_next := λ _, Some 1;
     refresh_cluster_status_handle_next :=
       λ _, inr (Some global_user_state.STOPPED);
     get_job_status_next := λ _, inr None;
     get_job_timestamp_next := λ _, inr 1000;
     get_handle_from_cluster_name_next := λ _, Some sample_handle;
     teardown_next := λ _, true;
     cancel_jobs_next := λ _, None |}.

Definition no_capacity_oracle : Oracle :=
  {| signal_handler_next := λ _, None;
     sky_launch_next := λ _, Some "No capacity in us-central1-a";
     get_cluster_from_name_next := λ _, None;
     refresh_cluster_status_handle_next :=
       λ _, inr (Some global_user_state.UP);
     get_job_status_next := λ _, inr None;
     get_job_timestamp_next := λ _, inr 1000;
     get_handle_from_cluster_name_next := λ _, Some sample_handle;
     teardown_next := λ _, true;
     cancel_jobs_next := λ _, None |}.

Definition cancelled_oracle : Oracle :=
  {| signal_handler_next := λ _, Some (SignalRaised "CANCEL");
     sky_launch_next := λ _, None;
     get_cluster_from_name_next := λ _, None;
     refresh_cluster_status_handle_next :=
       λ _, inr (Some global_user_state.UP);
     get_job_status_next := λ _, inr (Some job_lib.RUNNING);
     get_job_timestamp_next := λ _, inr 1000;
     get_handle_from_cluster_name_next := λ _, Some sample_handle;
     teardown_next := λ _, true;
     cancel_jobs_next := λ _, None |}.

(** ** The runs of [_launch] as a relation *)

(** The executor with its two blocked sets replaced. *)
Definition with_blocked (b : gset string * gset string)
    (s : StrategyExecutor) : StrategyExecutor :=
  {| strategy := strategy s; dag := dag s; cluster_name := cluster_name s;
     retry_until_up := retry_until_up s; _job_id := _job_id s;
     _blocked_regions := b.1;
     _blocked_zones := b.2 |}.

(** The last event of a job-checking loop left with [retry_launch = True]:
    a refresh that raised or did not report UP, or a job query that
    raised. *)
Definition poll_failure (e : event) : bool :=
  match e with
  | EvRefresh (inl _) => true
  | EvRefresh (inr cs) => bool_decide (cs ≠ Some global_user_state.UP)
  | EvJobStatus (inl _) => true
  | EvJobTimestamp (inl _) => true
  | _ => false
  end.

(** [launch_run job_id max_retry raise_on_failure retry_cnt backoff blocked
    evs r blocked']: from the top of the outer loop of [_launch] with the
    given local variables and blocked sets, the loop can emit [evs] and end
    with [r] and the blocked sets [blocked'].  One constructor per way
    through the loop body. *)
Inductive launch_run `{BackoffOps} `{SpotUtils} (job_id : Z)
    (max_retry : option Z) (raise_on_failure : bool) :
    Z → Backoff → gset string * gset string → list event →
    result (option Z) → gset string * gset string → Prop :=
| run_no_fuel retry_cnt backoff b :
    launch_run job_id max_retry raise_on_failure retry_cnt backoff b
      [] Diverge b
| run_signal retry_cnt backoff b e :
    launch_run job_id max_retry raise_on_failure retry_cnt backoff b
      [EvSignal (Some e)] (Raise e) b
| run_failed_last retry_cnt backoff b msg :
    max_retry_reached max_retry (retry_cnt + 1) = true →
    launch_run job_id max_retry raise_on_failure retry_cnt backoff b
      [EvSignal None; EvLaunch b.1 b.2 (Some msg)]
      (if raise_on_failure
       then Raise (ResourcesUnavailableError (launch_failed_message max_retry))
       else Ret None)
      (if exhausted (Some msg) then (∅, ∅) else b)
| run_failed_retry retry_cnt backoff b msg evs r b' :
    max_retry_reached max_retry (retry_cnt + 1) = false →
    launch_run job_id max_retry raise_on_failure (retry_cnt + 1)
      (current_backoff backoff).2
      (if exhausted (Some msg) then (∅, ∅) else b) evs r b' →
    launch_run job_id max_retry raise_on_failure retry_cnt backoff b
      (EvSignal None :: EvLaunch b.1 b.2 (Some msg)
         :: EvBackoff (current_backoff backoff).1
         :: EvSleep (current_backoff backoff).1 :: evs) r b'
| run_started retry_cnt backoff b record polls status t :
    forallb poll_event polls = true →
    launch_run job_id max_retry raise_on_failure retry_cnt backoff b
      (EvSignal None :: EvLaunch b.1 b.2 None
         :: record_events job_id record
         ++ polls
         ++ [EvRefresh (inr (Some global_user_state.UP));
             EvSleep JOB_STARTED_STATUS_CHECK_GAP_SECONDS;
             EvJobStatus (inr (Some status));
             EvJobTimestamp (inr t)])
      (Ret (Some t)) b
| run_relaunch retry_cnt backoff b record polls failure evs r b' :
    forallb poll_event polls = true →
    poll_event failure = true →
    poll_failure failure = true →
    launch_run job_id max_retry raise_on_failure (retry_cnt + 1)
      (current_backoff backoff).2 b evs r b' →
    launch_run job_id max_retry raise_on_failure retry_cnt backoff b
      (EvSignal None :: EvLaunch b.1 b.2 None
         :: record_events job_id record
         ++ polls ++ failure
         :: EvBackoff (current_backoff backoff).1
         :: EvSleep (current_backoff backoff).1 :: evs) r b'
| run_polls_exhausted retry_cnt backoff b record :
    launch_run job_id max_retry raise_on_failure retry_cnt backoff b
      (EvSignal None :: EvLaunch b.1 b.2 None
         :: record_events job_id record
         ++ mjoin (replicate (Z.to_nat MAX_JOB_CHECKING_RETRY) poll_round))
      (Ret None) b.

(** ** The blocked sets across operations *)

(** From [w] to [w'] the events [evs] were added and, unless one of them is
    an exhaustion failure, no blocked region or zone was lost. *)
Definition blocklist_grows (w w' : World) (evs : list event) : Prop :=
  trace w' = trace w ++ evs
  ∧ (exhaustion_signalled evs = false →
     _blocked_regions (self w) ⊆ _blocked_regions (self w')
     ∧ _blocked_zones (self w) ⊆ _blocked_zones (self w')).

(** The same, and the first [sky.launch] (if any) was given the blocked sets
    of [w]. *)
Definition recovery_summary (w w' : World) : Prop :=
  ∃ evs, blocklist_grows w w' evs
         ∧ ∀ given, first_launch evs = Some given → given = blocked (self w).

(** Provisioning fails four times, then works and the job starts. *)
Definition late_capacity_oracle : Oracle :=
  {| signal_handler_next := λ _, None;
     sky_launch_next :=
       λ n, if (n <? 4)%nat then Some "No capacity in us-central1-a"
            else None;
     get_cluster_from_name_next := λ _, None;
     refresh_cluster_status_handle_next :=
       λ _, inr (Some global_user_state.UP);
     get_job_status_next := λ _, inr (Some job_lib.RUNNING);
     get_job_timestamp_next := λ _, inr 1000;
     get_handle_from_cluster_name_next := λ _, Some sample_handle;
     teardown_next := λ _, true;
     cancel_jobs_next := λ _, None |}.

(** The cluster is registered and every teardown call fails. *)
Definition stuck_teardown_oracle : Oracle :=
  {| signal_handler_next := λ _, None;
     sky_launch_next := λ _, None;
     get_cluster_from_name_next := λ _, None;
     refresh_cluster_status_handle_next :=
       λ _, inr (Some global_user_state.UP);
     get_job_status_next := λ _, inr None;
     get_job_timestamp_next := λ _, inr 1000;
     get_handle_from_cluster_name_next := λ _, Some sample_handle;
     teardown_next := λ _, false;
     cancel_jobs_next := λ _, None |}.

(** A [CrossRegion] executor in a process that has [_CROSS_REGION] set. *)
Definition cross_region_world : World :=
  {| self := sample_executor CrossRegion false;
     environ := {[ "_CROSS_REGION" := "1" ]};
     oracle := late_capacity_oracle;
     trace := [] |}.

(** * Further notions *)

(** A registry whose default, if any, names a registered class. *)
Definition default_registered (g : registry) : Prop :=
  ∀ d, default_strategy g = Some d → is_Some (strategies g !! d).

(** What an outcome of [_launch] with [raise_on_failure = False] tells about
    its trace. *)
Definition tolerant_launch_outcome `{SpotUtils} (job_id : Z)
    (max_retry : option Z) (r : result (option Z)) (evs : list event) :
    Prop :=
  match r with
  | Ret (Some t) =>
    ∃ s, ends_with [EvRefresh (inr (Some global_user_state.UP));
                    EvSleep JOB_STARTED_STATUS_CHECK_GAP_SECONDS;
                    EvJobStatus (inr (Some s));
                    EvJobTimestamp (inr t)] evs
  | Ret None =>
    (∃ regions zones record,
       ends_with (EvLaunch regions zones None
                    :: record_events job_id record
                    ++ mjoin (replicate (Z.to_nat MAX_JOB_CHECKING_RETRY)
                                poll_round)) evs)
    ∨ (∃ regions zones msg,
         ends_with [EvLaunch regions zones (Some msg)] evs
         ∧ is_Some max_retry)
  | Raise e => ends_with [EvSignal (Some e)] evs
  | Diverge => True
  end.

(** The next [k] attempts pass the signal check and fail to provision. *)
Definition provisioning_fails (k : nat) (o : Oracle) : Prop :=
  ∀ i, (i < k)%nat →
       signal_handler_next o i = None ∧ is_Some (sky_launch_next o i).

(** The cluster stays UP and the job gets its first status at round [k] of
    the job-checking loop. *)
Definition job_starts_at (k : nat) (status : job_lib.JobStatus)
    (o : Oracle) : Prop :=
  (∀ i, (i ≤ k)%nat →
        refresh_cluster_status_handle_next o i
        = inr (Some global_user_state.UP))
  ∧ (∀ i, (i < k)%nat → get_job_status_next o i = inr None)
  ∧ get_job_status_next o k = inr (Some status).

(** Where the job-checking loop stands with respect to its next job status
    query: nothing seen, the cluster just seen UP, or seen UP and the poll
    gap slept. *)
Inductive poll_stage : Type := Idle | SeenUp | Waited.

(** Every job status query comes right after a refresh that reported UP and
    the poll gap; every timestamp query right after a status query that
    gave a status. *)
Fixpoint poll_protocol `{SpotUtils} (stage : poll_stage)
    (have_status : bool) (evs : list event) : Prop :=
  match evs with
  | [] => True
  | EvRefresh r :: evs =>
    poll_protocol
      (match r with
       | inr (Some global_user_state.UP) => SeenUp
       | _ => Idle
       end) false evs
  | EvSleep seconds :: evs =>
    poll_protocol
      (match stage with
       | SeenUp =>
         if bool_decide (seconds = JOB_STARTED_STATUS_CHECK_GAP_SECONDS)
         then Waited else Idle
       | _ => Idle
       end) false evs
  | EvJobStatus r :: evs =>
    stage = Waited
    ∧ poll_protocol Idle
        (match r with inr (Some _) => true | _ => false end) evs
  | EvJobTimestamp _ :: evs =>
    have_status = true ∧ poll_protocol Idle false evs
  | _ :: evs => poll_protocol Idle false evs
  end.

Fixpoint count_refreshes (evs : list event) : nat :=
  match evs with
  | [] => 0
  | EvRefresh _ :: evs => S (count_refreshes evs)
  | _ :: evs => count_refreshes evs
  end.

(** Where [_launch] stands with respect to the cluster record: nothing to
    do, [sky.launch] just returned, or the record was read with this
    [num_tried_locations]. *)
Inductive record_stage : Type :=
| NoRecord
| Launched
| Read (num_tried_locations : Z).

(** After every [sky.launch] that returned, and only then, the cluster
    record is read, and if there is one its [num_tried_locations] is stored
    for the job at once. *)
Fixpoint tried_locations_recorded (job_id : Z) (stage : record_stage)
    (evs : list event) : Prop :=
  match evs with
  | [] => stage = NoRecord
  | e :: evs =>
    match stage, e with
    | NoRecord, EvLaunch _ _ None =>
      tried_locations_recorded job_id Launched evs
    | NoRecord, EvGetCluster _ => False
    | NoRecord, EvUpdateTried _ _ => False
    | NoRecord, _ => tried_locations_recorded job_id NoRecord evs
    | Launched, EvGetCluster (Some n) =>
      tried_locations_recorded job_id (Read n) evs
    | Launched, EvGetCluster None =>
      tried_locations_recorded job_id NoRecord evs
    | Launched, _ => False
    | Read n, EvUpdateTried j m =>
      j = job_id ∧ m = n ∧ tried_locations_recorded job_id NoRecord evs
    | Read _, _ => False
    end
  end.

(** The executor [s'] is [s] up to its two blocked sets. *)
Definition same_identity (s s' : StrategyExecutor) : Prop :=
  strategy s' = strategy s ∧ dag s' = dag s
  ∧ cluster_name s' = cluster_name s
  ∧ retry_until_up s' = retry_until_up s ∧ _job_id s' = _job_id s.

(** Where an exception raised by [recover] comes from: the signal check;
    the teardown that failed for the last time; the recovery given up
    without [retry_until_up]; a registry lookup that found no handle; a
    [cancel_jobs] error other than [CommandError]; a dag without task or a
    task without resources. *)
Definition recover_raises (s : StrategyExecutor) (e : exn)
    (evs : list event) : Prop :=
  ends_with [EvSignal (Some e)] evs
  ∨ (e = RuntimeError (terminate_failed_message s)
     ∧ ∃ h, ends_with [EvTeardown h false] evs)
  ∨ (e = ResourcesUnavailableError recover_failed_message
     ∧ retry_until_up s = false)
  ∨ (e = AttributeError NONE_HAS_NO_LAUNCHED_RESOURCES
     ∧ EvGetHandle None ∈ evs)
  ∨ (∃ h, EvCancelJobs h (Some e) ∈ evs ∧ e ≠ CommandError)
  ∨ (e = IndexError "list index out of range"
     ∧ ∀ task, head (dag s) = Some task → resources task = []).

(** What an outcome of [recover] tells about its trace. *)
Definition recovery_outcome `{SpotUtils} (s : StrategyExecutor)
    (r : result Z) (evs : list event) : Prop :=
  match r with
  | Ret t =>
    ∃ status, ends_with [EvRefresh (inr (Some global_user_state.UP));
                         EvSleep JOB_STARTED_STATUS_CHECK_GAP_SECONDS;
                         EvJobStatus (inr (Some status));
                         EvJobTimestamp (inr t)] evs
  | Raise e => recover_raises s e evs
  | Diverge => True
  end.

(** The events [_launch] can produce: it never looks up the handle, tears
    the cluster down or cancels jobs. *)
Definition launch_event (e : event) : bool :=
  match e with
  | EvGetHandle _ | EvTeardown _ _ | EvCancelJobs _ _ => false
  | _ => true
  end.

(** Provisioning works, the cluster is UP and the job runs. *)
Definition healthy_oracle : Oracle :=
  {| signal_handler_next := λ _, None;
     sky_launch_next := λ _, None;
     get_cluster_from_name_next := λ _, Some 2;
     refresh_cluster_status_handle_next :=
       λ _, inr (Some global_user_state.UP);
     get_job_status_next := λ _, inr (Some job_lib.RUNNING);
     get_job_timestamp_next := λ _, inr 1000;
     get_handle_from_cluster_name_next := λ _, Some sample_handle;
     teardown_next := λ _, true;
     cancel_jobs_next := λ _, None |}.

(** The registry knows the cluster for the first [k] lookups only; teardown
    works and provisioning never does. *)
Definition lost_handle_oracle (k : nat) : Oracle :=
  {| signal_handler_next := λ _, None;
     sky_launch_next := λ _, Some "No capacity in us-central1-a";
     get_cluster_from_name_next := λ _, None;
     refresh_cluster_status_handle_next :=
       λ _, inr (Some global_user_state.UP);
     get_job_status_next := λ _, inr None;
     get_job_timestamp_next := λ _, inr 1000;
     get_handle_from_cluster_name_next :=
       λ n, if (n <? k)%nat then Some sample_handle else None;
     teardown_next := λ _, true;
     cancel_jobs_next := λ _, None |}.

(** * Proofs *)

(** Unfold the monad and the collaborator calls at the head of a run. *)
Ltac run :=
  cbv [mbind M_bind mret M_ret try call emit raise diverge rethrow get_self
       modify_self os_environ_get signal_handler sky_launch
       get_cluster_from_name update_num_tried_locations
       refresh_cluster_status_handle get_job_status get_job_timestamp
       get_handle_from_cluster_name teardown cancel_jobs sleep
       add_blocked_zone add_blocked_region clear_blocked
       get_launched_resources cancel_jobs_step];
  cbn [self environ oracle trace fst snd
       signal_handler_next sky_launch_next get_cluster_from_name_next
       refresh_cluster_status_handle_next get_job_status_next
       get_job_timestamp_next get_handle_from_cluster_name_next
       teardown_next cancel_jobs_next
       after_signal_handler after_sky_launch after_get_cluster_from_name
       after_refresh_cluster_status_handle after_get_job_status
       after_get_job_timestamp after_get_handle_from_cluster_name
       after_teardown after_cancel_jobs].

(** Give the events added to the trace. *)
Ltac trace_ext :=
  eexists; split; [by rewrite <- ?app_assoc | cbn [app]].

Ltac same_state := split; [done | split; [done |]].

Lemma with_blocked_id s : with_blocked (blocked s) s = s.
Proof. by destruct s. Qed.

Lemma blocked_with_blocked b s : blocked (with_blocked b s) = b.
Proof. by destruct b. Qed.

Section LaunchProofs.
Context `{BackoffOps} `{SpotUtils}.

(** The job-checking loop ends within [MAX_JOB_CHECKING_RETRY] rounds, does
    not touch the executor, and its outcome shows in its last events. *)
Lemma job_check_loop_outcome fuel cnt w :
  (Z.to_nat (MAX_JOB_CHECKING_RETRY - cnt) ≤ fuel)%nat →
  let '(r, w') := job_check_loop fuel None cnt w in
  self w' = self w ∧ environ w' = environ w ∧
  ∃ evs, trace w' = trace w ++ evs ∧ forallb poll_event evs = true ∧
  match r with
  | Ret (Returned t) =>
    ∃ pre s, evs = pre ++ [EvRefresh (inr (Some global_user_state.UP));
                            EvSleep JOB_STARTED_STATUS_CHECK_GAP_SECONDS;
                            EvJobStatus (inr (Some s));
                            EvJobTimestamp (inr t)]
  | Ret (Left false) =>
    evs = mjoin (replicate (Z.to_nat (MAX_JOB_CHECKING_RETRY - cnt))
                   poll_round)
  | Ret (Left true) =>
    ∃ pre failure, evs = pre ++ [failure] ∧ poll_failure failure = true
  | Raise _ | Diverge => False
  end.
Proof.
  revert cnt w. induction fuel as [|fuel IH]; intros cnt w Hfuel.
  - cbn. case_bool_decide; cbn; [lia|].
    same_state. exists []. rewrite app_nil_r.
    replace (Z.to_nat _) with 0%nat by lia. done.
  - cbn [job_check_loop job_not_started andb].
    case_bool_decide as Hlt; cbn; cycle 1.
    { same_state. exists []. rewrite app_nil_r.
      replace (Z.to_nat _) with 0%nat by lia. done. }
    run.
    destruct (refresh_cluster_status_handle_next (oracle w) 0%nat)
      as [e|cs] eqn:Eref; cbn.
    { same_state. trace_ext. split; [done|]. by exists [], (EvRefresh (inl e)). }
    case_bool_decide as Hup; cbn.
    { same_state. trace_ext. split; [done|].
      exists [], (EvRefresh (inr cs)). split; [done|]. by apply bool_decide_eq_true. }
    subst cs.
    destruct (get_job_status_next (oracle w) 0%nat) as [e|[s|]] eqn:Ejs; cbn.
    { same_state. trace_ext. split; [done|].
      by eexists [_; _], (EvJobStatus (inl e)). }
    { destruct (get_job_timestamp_next (oracle w) 0%nat) as [e|t] eqn:Ets; cbn.
      - same_state. trace_ext. split; [done|].
        by eexists [_; _; _], (EvJobTimestamp (inl e)).
      - same_state. trace_ext. split; [done|]. by exists [], s. }
    match goal with |- context [job_check_loop fuel None ?c ?w1] =>
      specialize (IH c w1) end.
    destruct (job_check_loop fuel None (cnt+1) _) as [r w'].
    destruct IH as (Hs & He & evs & Ht & Hp & Hr); [lia|].
    cbn in Hs, He, Ht.
    same_state. rewrite Ht. trace_ext. split; [done|].
    destruct r as [[t|[]]| |]; try done.
    + destruct Hr as (pre & s & ->). by eexists (_ :: _ :: _ :: pre), s.
    + destruct Hr as (pre & f & -> & ?). by eexists (_ :: _ :: _ :: pre), f.
    + subst evs.
      replace (Z.to_nat (MAX_JOB_CHECKING_RETRY - cnt))
        with (S (Z.to_nat (MAX_JOB_CHECKING_RETRY - (cnt + 1)))) by lia.
      done.
Qed.

Ltac use_poll :=
  match goal with
  | |- context [job_check_loop ?fuel None 0 ?w1] =>
    let Hj := fresh "Hj" in
    pose proof (job_check_loop_outcome fuel 0 w1 ltac:(lia)) as Hj;
    destruct (job_check_loop fuel None 0 w1) as [[[?|[]]|?|] ?];
    destruct Hj as (Hs & He & polls & Htp & Hp & Hr); try done
  end.

Ltac use_IH IH :=
  match goal with
  | |- context [launch_loop ?fuel ?mr ?rf ?c ?b1 ?w1] =>
    let r := fresh "r" in let w' := fresh "w'" in
    specialize (IH c b1 w1);
    destruct (launch_loop fuel mr rf c b1 w1) as [r w']
  end.

Lemma forallb_poll_event_app (xs ys : list event) :
  forallb poll_event (xs ++ ys) = true →
  forallb poll_event xs = true ∧ forallb poll_event ys = true.
Proof. rewrite forallb_app. by intros [??]%andb_prop. Qed.

(** Every run of the outer loop of [_launch] is a [launch_run]: only the
    blocked sets of the executor can change, and they change as the relation
    says. *)
Lemma launch_loop_run fuel max_retry raise_on_failure cnt b w :
  let '(r, w') := launch_loop fuel max_retry raise_on_failure cnt b w in
  ∃ evs b', trace w' = trace w ++ evs
    ∧ environ w' = environ w
    ∧ self w' = with_blocked b' (self w)
    ∧ launch_run (_job_id (self w)) max_retry raise_on_failure cnt b
        (blocked (self w)) evs r b'.
Proof.
  revert cnt b w. induction fuel as [|fuel IH]; intros cnt b w.
  { cbn. exists [], (blocked (self w)). rewrite app_nil_r, with_blocked_id.
    split_and!; try done. constructor. }
  cbn [launch_loop]. run.
  destruct (signal_handler_next (oracle w) 0%nat) as [e|] eqn:Esig; cbn.
  { eexists _, (blocked (self w)). rewrite with_blocked_id.
    split_and!; try done. constructor. }
  destruct (sky_launch_next (oracle w) 0%nat) as [msg|] eqn:Elaunch; cbn.
  - pose proof (run_failed_last (_job_id (self w)) max_retry raise_on_failure
                  cnt b (blocked (self w)) msg) as Hlast.
    pose proof (run_failed_retry (_job_id (self w)) max_retry
                  raise_on_failure cnt b (blocked (self w)) msg) as Hretry.
    cbn [exhausted] in Hlast, Hretry.
    destruct (str_contains EXHAUSTED_MESSAGE msg) eqn:Eex; cbn;
      destruct (max_retry_reached max_retry (cnt + 1)) eqn:Emax; cbn.
    + destruct raise_on_failure; cbn;
        exists [EvSignal None;
                EvLaunch (blocked (self w)).1 (blocked (self w)).2 (Some msg)],
               (∅, ∅);
        rewrite <- ?app_assoc; (split_and!; try done); by apply Hlast.
    + destruct (current_backoff b) as [gap b'] eqn:Eb; cbn.
      use_IH IH. destruct IH as (evs & b1 & Ht & He & Hs & Hr).
      cbn in Ht, He, Hs, Hr. rewrite Ht.
      eexists _, b1. rewrite <- ?app_assoc. cbn [app].
      split_and!; try done. by apply Hretry.
    + destruct raise_on_failure; cbn;
        exists [EvSignal None;
                EvLaunch (blocked (self w)).1 (blocked (self w)).2 (Some msg)],
               (blocked (self w));
        rewrite with_blocked_id, <- ?app_assoc; (split_and!; try done);
        by apply Hlast.
    + destruct (current_backoff b) as [gap b'] eqn:Eb; cbn.
      use_IH IH. destruct IH as (evs & b1 & Ht & He & Hs & Hr).
      cbn in Ht, He, Hs, Hr. rewrite Ht.
      eexists _, b1. rewrite <- ?app_assoc. cbn [app].
      split_and!; try done. by apply Hretry.
  - destruct (get_cluster_from_name_next (oracle w) 0%nat) as [n|] eqn:Erec;
      cbn; use_poll; cbn in *.
    all: try (destruct (current_backoff b) as [gap b'] eqn:Eb; cbn; use_IH IH;
              destruct IH as (evs & b1 & Ht & He' & Hs' & Hr');
              cbn in Ht, He', Hs', Hr'; rewrite Ht, ?Hs, ?He in *).
    all: rewrite Htp, ?Hs, ?He.
    all: first [eexists _, b1
               | eexists _, (blocked (self w)); rewrite with_blocked_id].
    all: rewrite <- ?app_assoc; cbn [app]; (split_and!; try done).
    + destruct Hr as (pre & s & ->).
      apply forallb_poll_event_app in Hp as [Hp _].
      exact (run_started (_job_id (self w)) max_retry raise_on_failure cnt b
               (blocked (self w)) (Some n) pre s _ Hp).
    + destruct Hr as (pre & f & -> & Hf).
      apply forallb_poll_event_app in Hp as [Hp Hpf]. cbn in Hpf.
      rewrite andb_true_r in Hpf. rewrite <- ?app_assoc. cbn [app].
      pose proof (run_relaunch (_job_id (self w)) max_retry raise_on_failure
                    cnt b (blocked (self w)) (Some n) pre f evs r b1) as Hc.
      rewrite Eb in Hc. exact (Hc Hp Hpf Hf Hr').
    + subst polls. rewrite Z.sub_0_r.
      exact (run_polls_exhausted (_job_id (self w)) max_retry
               raise_on_failure cnt b (blocked (self w)) (Some n)).
    + destruct Hr as (pre & s & ->).
      apply forallb_poll_event_app in Hp as [Hp _].
      exact (run_started (_job_id (self w)) max_retry raise_on_failure cnt b
               (blocked (self w)) None pre s _ Hp).
    + destruct Hr as (pre & f & -> & Hf).
      apply forallb_poll_event_app in Hp as [Hp Hpf]. cbn in Hpf.
      rewrite andb_true_r in Hpf. rewrite <- ?app_assoc. cbn [app].
      pose proof (run_relaunch (_job_id (self w)) max_retry raise_on_failure
                    cnt b (blocked (self w)) None pre f evs r b1) as Hc.
      rewrite Eb in Hc. exact (Hc Hp Hpf Hf Hr').
    + subst polls. rewrite Z.sub_0_r.
      exact (run_polls_exhausted (_job_id (self w)) max_retry
               raise_on_failure cnt b (blocked (self w)) None).
Qed.

(** Poll events are invisible to the trace readers. *)
Ltac skip_polls xs :=
  induction xs as [|e xs IH]; [done|];
  cbn [forallb app]; intros [He Hx]%andb_prop;
  destruct e; try done; cbn; auto.

Lemma signal_guarded_polls xs rest :
  forallb poll_event xs = true →
  signal_guarded false rest → signal_guarded false (xs ++ rest).
Proof. skip_polls xs. Qed.

Lemma signal_propagates_polls {A} (r : result A) xs rest :
  forallb poll_event xs = true →
  signal_propagates r rest → signal_propagates r (xs ++ rest).
Proof. skip_polls xs. Qed.

Lemma gaps_of_polls xs rest :
  forallb poll_event xs = true → gaps_of (xs ++ rest) = gaps_of rest.
Proof. skip_polls xs. Qed.

Lemma gaps_slept_polls xs rest :
  forallb poll_event xs = true → gaps_slept rest → gaps_slept (xs ++ rest).
Proof. skip_polls xs. Qed.

Lemma launches_given_polls xs rest b :
  forallb poll_event xs = true →
  launches_given rest b → launches_given (xs ++ rest) b.
Proof. skip_polls xs. Qed.

Lemma blocked_after_polls xs rest b :
  forallb poll_event xs = true →
  blocked_after (xs ++ rest) b = blocked_after rest b.
Proof. skip_polls xs. Qed.

Lemma poll_rounds_are_polls n :
  forallb poll_event (mjoin (replicate n poll_round)) = true.
Proof.
  induction n as [|n IH]; [done|].
  change (mjoin (replicate (S n) poll_round))
    with (poll_round ++ mjoin (replicate n poll_round)).
  by rewrite forallb_app, IH.
Qed.

Lemma ends_with_refl suffix : ends_with suffix suffix.
Proof. by exists []. Qed.

Lemma ends_with_cons suffix e evs :
  ends_with suffix evs → ends_with suffix (e :: evs).
Proof. intros [pre ->]. by exists (e :: pre). Qed.

Lemma ends_with_app suffix p evs :
  ends_with suffix evs → ends_with suffix (p ++ evs).
Proof. intros [pre ->]. exists (p ++ pre). by rewrite app_assoc. Qed.




Lemma launch_run_signal job_id max_retry rf cnt b s evs r s' :
  launch_run job_id max_retry rf cnt b s evs r s' →
  signal_guarded false evs ∧ signal_propagates r evs.
Proof.
  induction 1 as [ | | | cnt b s msg evs r s' Hmax Hrun [IHg IHp]
                 | cnt b s record polls st t Hp
                 | cnt b s record polls f evs r s' Hp Hpf Hf Hrun [IHg IHp]
                 | cnt b s record ]; cbn; try done.
  - split; [split; [done|]|].
    + destruct record; cbn; by apply signal_guarded_polls.
    + destruct record; cbn; by apply signal_propagates_polls.
  - split; [split; [done|]|].
    + destruct record; cbn; apply signal_guarded_polls; try done;
        destruct f; try done.
    + destruct record; cbn; apply signal_propagates_polls; try done;
        destruct f; try done.
  - pose proof (poll_rounds_are_polls (Z.to_nat MAX_JOB_CHECKING_RETRY)) as Hp.
    split; [split; [done|]|].
    + rewrite <- (app_nil_r (mjoin _)).
      destruct record; cbn; by apply signal_guarded_polls.
    + rewrite <- (app_nil_r (mjoin _)).
      destruct record; cbn; by apply signal_propagates_polls.
Qed.

Lemma launch_run_gaps job_id max_retry rf cnt b s evs r s' :
  launch_run job_id max_retry rf cnt b s evs r s' →
  gaps_of evs = backoff_gaps (length (gaps_of evs)) b ∧ gaps_slept evs.
Proof.
  induction 1 as [ | | | cnt b s msg evs r s' Hmax Hrun [IHg IHs]
                 | cnt b s record polls st t Hp
                 | cnt b s record polls f evs r s' Hp Hpf Hf Hrun [IHg IHs]
                 | cnt b s record ]; cbn; try done.
  - destruct (current_backoff b) as [gap b'] in *. cbn in *.
    split; [by f_equal|done].
  - destruct record; cbn; rewrite gaps_of_polls by done; cbn; (split; [done|]);
      by apply gaps_slept_polls.
  - set (gap := (current_backoff b).1) in *.
    assert (gaps_of (f :: EvBackoff gap :: EvSleep gap :: evs)
            = gap :: gaps_of evs) as Hg by (by destruct f).
    assert (gaps_slept (f :: EvBackoff gap :: EvSleep gap :: evs)) as Hsl
      by (by destruct f).
    subst gap.
    destruct record; cbn; rewrite gaps_of_polls, Hg by done; cbn;
      destruct (current_backoff b) as [gap b']; cbn in *;
      (split; [by f_equal|]); by apply gaps_slept_polls.
  - pose proof (poll_rounds_are_polls (Z.to_nat MAX_JOB_CHECKING_RETRY)) as Hp.
    rewrite <- (app_nil_r (mjoin _)).
    destruct record; cbn; rewrite gaps_of_polls by done; cbn; (split; [done|]);
      by apply gaps_slept_polls.
Qed.

Lemma launch_run_blocked job_id max_retry rf cnt b s evs r s' :
  launch_run job_id max_retry rf cnt b s evs r s' →
  launches_given evs s ∧ s' = blocked_after evs s.
Proof.
  induction 1 as [ | | cnt b s msg Hmax
                 | cnt b s msg evs r s' Hmax Hrun [IHg IHs]
                 | cnt b s record polls st t Hp
                 | cnt b s record polls f evs r s' Hp Hpf Hf Hrun [IHg IHs]
                 | cnt b s record ]; cbn [launches_given blocked_after];
    try done.
  - by destruct s.
  - split; [split; [by destruct s|done]|done].
  - split; [split; [by destruct s|]|].
    + destruct record; cbn; by apply launches_given_polls.
    + destruct record; cbn; by rewrite blocked_after_polls.
  - assert (launches_given (f :: EvBackoff (current_backoff b).1
                              :: EvSleep (current_backoff b).1 :: evs) s)
      as Hg by (by destruct f).
    assert (blocked_after (f :: EvBackoff (current_backoff b).1
                             :: EvSleep (current_backoff b).1 :: evs) s
            = blocked_after evs s) as Hb by (by destruct f).
    split; [split; [by destruct s|]|].
    + destruct record; cbn; by apply launches_given_polls.
    + destruct record; cbn; by rewrite blocked_after_polls, Hb.
  - pose proof (poll_rounds_are_polls (Z.to_nat MAX_JOB_CHECKING_RETRY)) as Hp.
    rewrite <- (app_nil_r (mjoin _)).
    split; [split; [by destruct s|]|].
    + destruct record; cbn; by apply launches_given_polls.
    + destruct record; cbn; by rewrite blocked_after_polls.
Qed.

Lemma launch_run_first_launch job_id max_retry rf cnt b s evs r s' :
  launch_run job_id max_retry rf cnt b s evs r s' →
  match first_launch evs with
  | Some given => given = s
  | None => ∀ x, r ≠ Ret x
  end.
Proof.
  destruct 1 as [ | | cnt b s | cnt b s | cnt b s record | cnt b s record
                | cnt b s record ]; cbn; try done; by destruct s.
Qed.

(** *** Provisioning succeeds but the cluster is always lost *)

Lemma always_preempted_after o :
  always_preempted o →
  always_preempted
    (after_refresh_cluster_status_handle
       (after_get_cluster_from_name
          (after_sky_launch (after_signal_handler o)))).
Proof. intros (Hs & Hl & Hr). by split_and!; intros n; cbn; unfold tl_stream. Qed.

(** With such an oracle no amount of fuel lets the loop end, whatever
    [max_retry] is: every round provisions once and comes back to the top. *)
Lemma launch_loop_always_preempted fuel max_retry raise_on_failure cnt b w :
  0 < MAX_JOB_CHECKING_RETRY →
  always_preempted (oracle w) →
  let '(r, w') := launch_loop fuel max_retry raise_on_failure cnt b w in
  r = Diverge
  ∧ ∃ evs, trace w' = trace w ++ evs ∧ count_launches evs = fuel.
Proof.
  intros Hmax. revert cnt b w.
  induction fuel as [|fuel IH]; intros cnt b w Ho.
  { cbn. split; [done|]. exists []. by rewrite app_nil_r. }
  pose proof Ho as (Hsig & Hlaunch & Hrefresh).
  cbn [launch_loop]. run. rewrite Hsig. cbn. rewrite Hlaunch. cbn.
  destruct (Z.to_nat MAX_JOB_CHECKING_RETRY) as [|k] eqn:Ek; [lia|].
  cbn [job_check_loop job_not_started andb].
  rewrite bool_decide_eq_true_2 by done.
  pose proof (always_preempted_after _ Ho) as Ho'.
  destruct (get_cluster_from_name_next (oracle w) 0%nat) as [n|]; run;
    (destruct (refresh_cluster_status_handle_next (oracle w) 0%nat)
       as [e|cs] eqn:Eref; cbn [fst snd]).
  all: rewrite ?bool_decide_eq_true_2
         by (intros ->; by apply (Hrefresh 0%nat)).
  all: cbn; destruct (current_backoff b) as [gap b']; cbn.
  all: use_IH IH; destruct IH as (-> & evs & Ht & Hn); [done|]; cbn in Ht.
  all: (split; [done|]); rewrite Ht; trace_ext; cbn; by rewrite Hn.
Qed.

(** *** Provisioning never succeeds *)

Lemma never_provisioned_after o :
  never_provisioned o →
  never_provisioned (after_sky_launch (after_signal_handler o)).
Proof. intros (Hs & Hl). by split; intros n; cbn; unfold tl_stream. Qed.

(** *** Provisioning keeps failing *)

Lemma provisioning_fails_after k o :
  provisioning_fails (S k) o →
  provisioning_fails k (after_sky_launch (after_signal_handler o)).
Proof.
  intros Ho i Hi. cbn. unfold tl_stream. apply Ho. lia.
Qed.

(** Every iteration of the outer loop starts with the signal check. *)
Lemma launch_loop_signal_first fuel max_retry raise_on_failure cnt b w :
  let '(_, w') := launch_loop (S fuel) max_retry raise_on_failure cnt b w in
  ∃ rest,
    trace w' = trace w ++ EvSignal (signal_handler_next (oracle w) 0%nat)
                 :: rest.
Proof.
  pose proof (launch_loop_run fuel max_retry raise_on_failure) as Hrun.
  cbn [launch_loop]. run.
  destruct (signal_handler_next (oracle w) 0%nat) as [e|] eqn:Esig; cbn.
  { by eexists. }
  destruct (sky_launch_next (oracle w) 0%nat) as [msg|] eqn:Elaunch; cbn.
  - destruct (str_contains EXHAUSTED_MESSAGE msg); cbn;
      destruct (max_retry_reached max_retry (cnt + 1)); cbn;
      try (destruct raise_on_failure; cbn; eexists;
           by rewrite <- ?app_assoc).
    all: destruct (current_backoff b) as [gap b']; cbn; use_IH Hrun;
      destruct Hrun as (evs & b1 & Ht & _); cbn in Ht; rewrite Ht;
      eexists; by rewrite <- ?app_assoc.
  - destruct (get_cluster_from_name_next (oracle w) 0%nat) as [n|];
      cbn; use_poll; cbn in *.
    all: try (destruct (current_backoff b) as [gap b']; cbn; use_IH Hrun;
              destruct Hrun as (evs & b1 & Ht & _); cbn in Ht;
              rewrite Ht, ?Hs, ?He in *).
    all: rewrite Htp; eexists; by rewrite <- ?app_assoc.
Qed.

(** Without a bound, failed provisioning never ends the loop: every unit of
    fuel is one more attempt, each followed by a gap from the backoff that
    is slept at once. *)
Lemma launch_loop_keeps_retrying fuel raise_on_failure cnt b w :
  never_provisioned (oracle w) →
  let '(r, w') := launch_loop fuel None raise_on_failure cnt b w in
  r = Diverge
  ∧ ∃ evs, trace w' = trace w ++ evs
           ∧ count_launches evs = fuel
           ∧ gaps_of evs = backoff_gaps fuel b
           ∧ gaps_slept evs.
Proof.
  revert cnt b w. induction fuel as [|fuel IH]; intros cnt b w Ho.
  { cbn. split; [done|]. exists []. by rewrite app_nil_r. }
  pose proof Ho as (Hsig & Hlaunch).
  pose proof (never_provisioned_after _ Ho) as Ho'.
  destruct (Hlaunch 0%nat) as [msg Hmsg].
  cbn [launch_loop]. run. rewrite Hsig. cbn. rewrite Hmsg. cbn.
  destruct (str_contains EXHAUSTED_MESSAGE msg); cbn;
    destruct (current_backoff b) as [gap b'] eqn:Eb; cbn;
    match goal with |- context [launch_loop fuel ?mr ?rf ?c ?b1 ?w1] =>
      specialize (IH c b1 w1 Ho');
      destruct (launch_loop fuel mr rf c b1 w1) as [r w']
    end;
    destruct IH as (-> & evs & Ht & Hn & Hg & Hsl); cbn in Ht;
    (split; [done|]); rewrite Ht; trace_ext; cbn;
    by rewrite Hn, Hg, ?Eb.
Qed.

(** Without a bound, the loop retries failed provisioning until the signal
    check raises: [k] attempts, then the signal's exception. *)
Lemma launch_loop_until_signal k fuel raise_on_failure cnt b w e :
  provisioning_fails k (oracle w) →
  signal_handler_next (oracle w) k = Some e →
  (k < fuel)%nat →
  let '(r, w') := launch_loop fuel None raise_on_failure cnt b w in
  r = Raise e
  ∧ ∃ evs, trace w' = trace w ++ evs ++ [EvSignal (Some e)]
           ∧ count_launches evs = k
           ∧ gaps_of evs = backoff_gaps k b
           ∧ gaps_slept evs.
Proof.
  revert fuel cnt b w.
  induction k as [|k IH]; intros fuel cnt b w Ho Hsig Hfuel;
    (destruct fuel as [|fuel]; [lia|]); cbn [launch_loop]; run.
  { rewrite Hsig. cbn. split; [done|]. by exists []. }
  destruct (Ho 0%nat ltac:(lia)) as [Hsig0 [msg Hmsg]].
  apply provisioning_fails_after in Ho.
  rewrite Hsig0. cbn. rewrite Hmsg. cbn.
  destruct (str_contains EXHAUSTED_MESSAGE msg); cbn;
    destruct (current_backoff b) as [gap b'] eqn:Eb; cbn;
    match goal with |- context [launch_loop fuel ?mr ?rf ?c ?b1 ?w1] =>
      specialize (IH fuel c b1 w1 Ho Hsig ltac:(lia));
      destruct (launch_loop fuel mr rf c b1 w1) as [r w']
    end;
    destruct IH as (-> & evs & Ht & Hn & Hg & Hsl); cbn in Ht;
    (split; [done|]); rewrite Ht;
    exists (EvSignal None :: EvLaunch (_blocked_regions (self w))
              (_blocked_zones (self w)) (Some msg)
              :: EvBackoff gap :: EvSleep gap :: evs);
    (split; [by rewrite <- ?app_assoc|]); cbn;
    by rewrite Hn, Hg, ?Eb.
Qed.

(** *** One provisioning failure, and what follows it *)

Lemma launch_loop_failure_retry fuel max_retry raise_on_failure cnt b w msg :
  signal_handler_next (oracle w) 0%nat = None →
  sky_launch_next (oracle w) 0%nat = Some msg →
  let '(r, w') :=
    launch_loop (S fuel) max_retry raise_on_failure cnt b w in
  ∃ evs,
    trace w' = trace w ++ EvSignal None
                 :: EvLaunch (_blocked_regions (self w))
                      (_blocked_zones (self w)) (Some msg) :: evs
    ∧ if max_retry_reached max_retry (cnt + 1) then
        evs = []
        ∧ r = (if raise_on_failure
               then Raise (ResourcesUnavailableError
                             (launch_failed_message max_retry))
               else Ret None)
      else
        ∃ rest blocked',
          evs = EvBackoff (current_backoff b).1
                  :: EvSleep (current_backoff b).1 :: rest
          ∧ launch_run (_job_id (self w)) max_retry raise_on_failure
              (cnt + 1) (current_backoff b).2
              (if exhausted (Some msg) then (∅, ∅) else blocked (self w))
              rest r blocked'
          ∧ match fuel with
            | O => rest = [] ∧ r = Diverge
            | S _ =>
              ∃ rest',
                rest = EvSignal (signal_handler_next (oracle w) 1%nat)
                         :: rest'
            end.
Proof.
  intros Hsig Hmsg.
  assert (∀ mr rf c b1 w1,
            signal_handler_next (oracle w1) 0%nat
            = signal_handler_next (oracle w) 1%nat →
            let '(r, w') := launch_loop fuel mr rf c b1 w1 in
            ∀ evs, trace w' = trace w1 ++ evs →
              match fuel with
              | O => evs = [] ∧ r = Diverge
              | S _ =>
                ∃ rest',
                  evs = EvSignal (signal_handler_next (oracle w) 1%nat)
                          :: rest'
              end) as Hnext.
  { intros mr rf c b1 w1 Hw1. destruct fuel as [|fuel'].
    - cbn. intros evs Ht. split; [|done].
      apply (app_inv_head (trace w1)). by rewrite app_nil_r.
    - pose proof (launch_loop_signal_first fuel' mr rf c b1 w1) as Hf.
      destruct (launch_loop (S fuel') mr rf c b1 w1) as [r w'].
      destruct Hf as [rest' Hf]. intros evs Ht. exists rest'.
      rewrite Ht, Hw1 in Hf. by apply app_inv_head in Hf. }
  cbn [launch_loop exhausted]. run.
  rewrite Hsig. cbn. rewrite Hmsg. cbn.
  destruct (str_contains EXHAUSTED_MESSAGE msg); cbn;
    destruct (max_retry_reached max_retry (cnt + 1)); cbn;
    try (destruct raise_on_failure; cbn; by trace_ext);
    destruct (current_backoff b) as [gap b']; cbn;
    match goal with |- context [launch_loop fuel ?mr ?rf ?c ?b1 ?w1] =>
      pose proof (launch_loop_run fuel mr rf c b1 w1) as Hrun;
      specialize (Hnext mr rf c b1 w1 eq_refl);
      destruct (launch_loop fuel mr rf c b1 w1) as [r w']
    end;
    destruct Hrun as (evs & b1 & Ht & _ & _ & Hrun); cbn in Ht, Hrun;
    specialize (Hnext evs Ht);
    rewrite Ht; trace_ext; by eexists _, _.
Qed.

End LaunchProofs.

(** ** [terminate_cluster] *)

(** The teardown loop makes [k] failed calls and one last call; it returns
    when that one succeeds and raises when it was call number
    [max 1 (max_retry - retry_cnt)]. *)
Lemma teardown_loop_outcome fuel h max_retry cnt w :
  (Z.to_nat (Z.max 1 (max_retry - cnt)) ≤ fuel)%nat →
  let '(r, w') := teardown_loop fuel h max_retry cnt w in
  self w' = self w ∧ environ w' = environ w ∧
  ∃ k last,
    trace w' = trace w ++ replicate k (EvTeardown h false)
                       ++ [EvTeardown h last]
    ∧ (∀ i, (i < k)%nat → teardown_next (oracle w) i = false)
    ∧ teardown_next (oracle w) k = last
    ∧ r = (if last then Ret tt
           else Raise (RuntimeError (terminate_failed_message (self w))))
    ∧ (k < Z.to_nat (Z.max 1 (max_retry - cnt)))%nat
    ∧ (last = false → S k = Z.to_nat (Z.max 1 (max_retry - cnt))).
Proof.
  revert cnt w. induction fuel as [|fuel IH]; intros cnt w Hfuel; [lia|].
  cbn [teardown_loop]. run.
  destruct (teardown_next (oracle w) 0%nat) eqn:Ea; cbn.
  { same_state. exists 0%nat, true. split_and!; try done; lia. }
  case_bool_decide as Hmax; cbn.
  { same_state. exists 0%nat, false. split_and!; try done; lia. }
  match goal with |- context [teardown_loop fuel h max_retry ?c ?w1] =>
    specialize (IH c w1); destruct (teardown_loop fuel h max_retry c w1)
      as [r w'] end.
  destruct IH as (Hs & He & k & last & Ht & Hfail & Hlast & Hr & Hk & Hn);
    [lia|].
  cbn in Hs, He, Ht, Hfail, Hlast, Hr. unfold tl_stream in *.
  same_state. exists (S k), last. rewrite Ht. rewrite <- app_assoc.
  split_and!; try done.
  - intros [|i] Hi; [done|]. apply Hfail. lia.
  - lia.
  - intros Hl. specialize (Hn Hl). lia.
Qed.

Lemma count_launches_teardowns h k last :
  count_launches (replicate k (EvTeardown h false) ++ [EvTeardown h last])
  = 0%nat.
Proof. induction k as [|k IH]; [done|]. done. Qed.

Lemma terminate_cluster_quiet max_retry w :
  let '(r, w') := terminate_cluster max_retry w in
  self w' = self w ∧ environ w' = environ w
  ∧ ∃ evs, trace w' = trace w ++ evs ∧ count_launches evs = 0%nat.
Proof.
  unfold terminate_cluster. run.
  destruct (get_handle_from_cluster_name_next (oracle w) 0%nat) as [h|]; cbn.
  - match goal with |- context [teardown_loop ?f h ?m ?c ?w1] =>
      pose proof (teardown_loop_outcome f h m c w1 ltac:(lia)) as Ht;
      destruct (teardown_loop f h m c w1) as [r w'] end.
    destruct Ht as (Hs & He & k & last & Ht & _). cbn in Hs, He, Ht.
    same_state. rewrite Ht. trace_ext. apply count_launches_teardowns.
  - same_state. by trace_ext.
Qed.

Lemma first_launch_app xs ys :
  first_launch (xs ++ ys)
  = match first_launch xs with
    | Some given => Some given
    | None => first_launch ys
    end.
Proof. induction xs as [|e xs IH]; [done|]. by destruct e. Qed.

Lemma first_launch_no_launches xs :
  count_launches xs = 0%nat → first_launch xs = None.
Proof. induction xs as [|e xs IH]; [done|]. by destruct e. Qed.

Lemma exhaustion_signalled_app xs ys :
  exhaustion_signalled (xs ++ ys)
  = exhaustion_signalled xs || exhaustion_signalled ys.
Proof.
  induction xs as [|e xs IH]; [done|].
  destruct e; cbn; rewrite ?IH; try done. by rewrite orb_assoc.
Qed.

Lemma blocked_after_no_exhaustion evs b :
  exhaustion_signalled evs = false → blocked_after evs b = b.
Proof.
  revert b. induction evs as [|e evs IH]; intros b; [done|].
  destruct e; cbn; auto.
  intros [-> ?]%orb_false_elim. auto.
Qed.

Lemma blocklist_grows_refl w : blocklist_grows w w [].
Proof. split; [by rewrite app_nil_r|done]. Qed.

Lemma blocklist_grows_trans w1 w2 w3 evs1 evs2 :
  blocklist_grows w1 w2 evs1 → blocklist_grows w2 w3 evs2 →
  blocklist_grows w1 w3 (evs1 ++ evs2).
Proof.
  intros [Ht1 Hg1] [Ht2 Hg2]. split.
  - by rewrite Ht2, Ht1, app_assoc.
  - rewrite exhaustion_signalled_app. intros [H1 H2]%orb_false_elim.
    pose proof (Hg1 H1) as [??]. pose proof (Hg2 H2) as [??].
    split; by etrans.
Qed.

Lemma recovery_summary_refl w : recovery_summary w w.
Proof. exists []. split; [apply blocklist_grows_refl|done]. Qed.

Section RecoveryProofs.
Context `{BackoffOps} `{SpotUtils}.

Lemma launch_summary fuel max_retry raise_on_failure w :
  let '(r, w') := _launch fuel max_retry raise_on_failure w in
  ∃ evs, blocklist_grows w w' evs
    ∧ environ w' = environ w
    ∧ self w' = with_blocked (blocked_after evs (blocked (self w))) (self w)
    ∧ launches_given evs (blocked (self w))
    ∧ match first_launch evs with
      | Some given => given = blocked (self w)
      | None => ∀ x, r ≠ Ret x
      end.
Proof.
  unfold _launch.
  pose proof (launch_loop_run fuel max_retry raise_on_failure 0
                (Backoff_init RETRY_INIT_GAP_SECONDS) w) as Hrun.
  destruct (launch_loop _ _ _ _ _ w) as [r w'].
  destruct Hrun as (evs & b' & Ht & He & Hs & Hrun).
  pose proof (launch_run_blocked _ _ _ _ _ _ _ _ _ Hrun) as [Hg ->].
  pose proof (launch_run_first_launch _ _ _ _ _ _ _ _ _ Hrun) as Hf.
  exists evs. split_and!; try done. split; [done|].
  intros Hex. rewrite Hs, blocked_after_no_exhaustion by done.
  by destruct (self w).
Qed.

(** What is left to show once a round of a recovery loop has terminated the
    cluster ([w1]) and called [_launch] ([w2]). *)
Lemma round_summary w w1 w2 w' evs1 evs2 evs3 :
  self w1 = self w →
  trace w1 = trace w ++ evs1 →
  count_launches evs1 = 0%nat →
  blocklist_grows w1 w2 evs2 →
  (∀ given, first_launch evs2 = Some given → given = blocked (self w1)) →
  blocklist_grows w2 w' evs3 →
  (first_launch evs2 = None → first_launch evs3 = None) →
  recovery_summary w w'.
Proof.
  intros Hs1 Ht1 Hc1 Hg2 Hf2 Hg3 Hf3.
  exists (evs1 ++ evs2 ++ evs3). split.
  - apply (blocklist_grows_trans w w1 w'); [|by eapply blocklist_grows_trans].
    split; [done|]. by rewrite Hs1.
  - intros given. rewrite !first_launch_app.
    rewrite (first_launch_no_launches evs1) by done.
    destruct (first_launch evs2) as [g|] eqn:Ef.
    + intros [= <-]. rewrite <- Hs1. by apply Hf2.
    + by rewrite Hf3.
Qed.

Ltac use_terminate :=
  match goal with
  | |- context [terminate_cluster ?m ?w] =>
    let Hq := fresh "Hq" in
    pose proof (terminate_cluster_quiet m w) as Hq;
    destruct (terminate_cluster m w) as [[[]|?|] w1];
    destruct Hq as (Hs1 & He1 & evs1 & Ht1 & Hc1); cbn
  end.

Ltac use_launch :=
  match goal with
  | |- context [_launch ?f ?m ?rf ?w1] =>
    let Hl := fresh "Hl" in
    pose proof (launch_summary f m rf w1) as Hl;
    destruct (_launch f m rf w1) as [[[?|]|?|] w2];
    destruct Hl as (evs2 & Hg2 & He2 & Hs2 & Hgiven & Hf2); cbn
  end.

Lemma cross_region_loop_summary fuel w :
  let '(_, w') := cross_region_loop fuel w in recovery_summary w w'.
Proof.
  revert w. induction fuel as [|fuel IH]; intros w.
  { cbn. apply recovery_summary_refl. }
  cbn [cross_region_loop]. run. use_terminate.
  2,3: exists evs1; split; [split; [done|by rewrite Hs1]|];
       by rewrite first_launch_no_launches.
  use_launch.
  all: try (apply (round_summary w w1 w2 w2 evs1 evs2 []); try done;
            [by destruct (first_launch evs2); [intros ? [= <-]|]
            |apply blocklist_grows_refl]).
  assert (first_launch evs2 = None → False) as Hlaunched.
  { intros Hn. rewrite Hn in Hf2. by apply (Hf2 None). }
  assert (∀ given, first_launch evs2 = Some given → given = blocked (self w1))
    as Hfirst.
  { intros given Hg. by rewrite Hg in Hf2. }
  run.
  destruct (get_handle_from_cluster_name_next (oracle w2) 0%nat) as [h|];
    cbn; destruct (retry_until_up (self w2)); cbn.
  1,3: match goal with |- context [cross_region_loop ?f ?w3] =>
         specialize (IH w3); destruct (cross_region_loop f w3) as [r w'];
         destruct IH as (evs4 & Hg4 & _);
         eapply (round_summary w w1 w2 w' evs1 evs2 (_ ++ evs4)); try done;
         eapply (blocklist_grows_trans w2 w3 w'); [|done]
       end.
  all: try (eapply (round_summary w w1 w2 _ evs1 evs2 [EvGetHandle _]);
            try done).
  all: split; [cbn; by rewrite <- ?app_assoc | intros _; cbn; set_solver].
Qed.
Lemma failover_loop_summary fuel handle w :
  let '(_, w') := failover_loop fuel handle w in recovery_summary w w'.
Proof.
  revert handle w. induction fuel as [|fuel IH]; intros handle w.
  { cbn. apply recovery_summary_refl. }
  cbn [failover_loop]. run.
  destruct (dag (self w)) as [|task tasks]; cbn;
    [apply recovery_summary_refl|].
  destruct (resources task) as [|res ress]; cbn;
    [apply recovery_summary_refl|].
  destruct handle as [h0|]; cbn; [|apply recovery_summary_refl].
  use_terminate.
  2,3: exists evs1; split; [split; [done|by rewrite Hs1]|];
       by rewrite first_launch_no_launches.
  use_launch.
  all: try (apply (round_summary w w1 w2 w2 evs1 evs2 []); try done;
            [by destruct (first_launch evs2); [intros ? [= <-]|]
            |apply blocklist_grows_refl]).
  assert (first_launch evs2 = None → False) as Hlaunched.
  { intros Hn. rewrite Hn in Hf2. by apply (Hf2 None). }
  assert (∀ given, first_launch evs2 = Some given → given = blocked (self w1))
    as Hfirst.
  { intros given Hg. by rewrite Hg in Hf2. }
  run.
  destruct (get_handle_from_cluster_name_next (oracle w2) 0%nat) as [h|];
    cbn; destruct (retry_until_up (self w2)); cbn.
  1,3: match goal with |- context [failover_loop ?f ?h' ?w3] =>
         specialize (IH h' w3); destruct (failover_loop f h' w3) as [r w'];
         destruct IH as (evs4 & Hg4 & _);
         eapply (round_summary w w1 w2 w' evs1 evs2 (_ ++ evs4)); try done;
         eapply (blocklist_grows_trans w2 w3 w'); [|done]
       end.
  all: try (eapply (round_summary w w1 w2 _ evs1 evs2 [EvGetHandle _]);
            try done).
  all: split; [cbn; by rewrite <- ?app_assoc | intros _; cbn; set_solver].
Qed.

End RecoveryProofs.

(** * The claims *)

Section Claims.
Context `{BackoffOps} `{SpotUtils}.


(** C3: when the signal check passes and provisioning fails, the loop of
    [_launch] ends there exactly if [max_retry] is set and reached by the
    attempt count, raising [ResourcesUnavailableError] or returning [None]
    as [raise_on_failure] says; otherwise it draws a gap from the backoff,
    sleeps for it and goes on from the top of the loop, that is with the
    next signal check.  With [max_retry = None] the bound is never reached:
    as long as provisioning keeps failing the loop makes one more attempt
    for every step it is given, each followed by the backoff gap slept at
    once, and it ends only when a signal check raises, with that
    exception. *)
Theorem provisioning_failure_handling fuel max_retry raise_on_failure
    retry_cnt backoff w msg :
  signal_handler_next (oracle w) 0%nat = None →
  sky_launch_next (oracle w) 0%nat = Some msg →
  let '(r, w') :=
    launch_loop (S fuel) max_retry raise_on_failure retry_cnt backoff w in
  (∃ evs,
     trace w' = trace w ++ EvSignal None
                  :: EvLaunch (_blocked_regions (self w))
                       (_blocked_zones (self w)) (Some msg) :: evs
     ∧ if max_retry_reached max_retry (retry_cnt + 1) then
         evs = []
         ∧ r = (if raise_on_failure
                then Raise (ResourcesUnavailableError
                              (launch_failed_message max_retry))
                else Ret None)
       else
         ∃ rest blocked',
           evs = EvBackoff (current_backoff backoff).1
                   :: EvSleep (current_backoff backoff).1 :: rest
           ∧ launch_run (_job_id (self w)) max_retry raise_on_failure
               (retry_cnt + 1) (current_backoff backoff).2
               (if exhausted (Some msg) then (∅, ∅) else blocked (self w))
               rest r blocked'
           ∧ match fuel with
             | O => rest = [] ∧ r = Diverge
             | S _ =>
               ∃ rest',
                 rest = EvSignal (signal_handler_next (oracle w) 1%nat)
                          :: rest'
             end)
  ∧ (max_retry = None →
     max_retry_reached max_retry (retry_cnt + 1) = false
     ∧ (never_provisioned (oracle w) →
        r = Diverge
        ∧ ∃ evs, trace w' = trace w ++ evs
                 ∧ count_launches evs = S fuel
                 ∧ gaps_of evs = backoff_gaps (S fuel) backoff
                 ∧ gaps_slept evs)
     ∧ (∀ k e,
          provisioning_fails k (oracle w) →
          signal_handler_next (oracle w) k = Some e →
          (k ≤ fuel)%nat →
          r = Raise e
          ∧ ∃ evs, trace w' = trace w ++ evs ++ [EvSignal (Some e)]
                   ∧ count_launches evs = k
                   ∧ gaps_of evs = backoff_gaps k backoff
                   ∧ gaps_slept evs)).
Proof.
  intros Hsig Hmsg.
  pose proof (launch_loop_failure_retry fuel max_retry raise_on_failure
                retry_cnt backoff w msg Hsig Hmsg) as Hstep.
  pose proof (launch_loop_keeps_retrying (S fuel) raise_on_failure
                retry_cnt backoff w) as Hnever.
  pose proof (λ k e, launch_loop_until_signal k (S fuel) raise_on_failure
                       retry_cnt backoff w e) as Hsignal.
  destruct (launch_loop (S fuel) max_retry raise_on_failure retry_cnt
              backoff w) as [r w'] eqn:Erun.
  split; [done|]. intros ->. rewrite Erun in Hnever, Hsignal.
  split; [done|]. split; [done|].
  intros k e Ho He Hk. apply Hsignal; [done|done|lia].
Qed.

(** C5: in every run of [_launch] each [sky.launch] call comes right after
    a signal check that passed; a signal check that raises ends the run with
    that exception; and when the first check raises, nothing else happens:
    no provisioning call is issued. *)
Theorem signal_checked_before_every_attempt fuel max_retry raise_on_failure
    w :
  (let '(r, w') := _launch fuel max_retry raise_on_failure w in
   ∃ evs, trace w' = trace w ++ evs
          ∧ signal_guarded false evs ∧ signal_propagates r evs)
  ∧ (∀ e, signal_handler_next (oracle w) 0%nat = Some e →
       let '(r, w') := _launch (S fuel) max_retry raise_on_failure w in
       r = Raise e ∧ self w' = self w
       ∧ trace w' = trace w ++ [EvSignal (Some e)]).
Proof.
  split.
  - unfold _launch.
    pose proof (launch_loop_run fuel max_retry raise_on_failure 0
                  (Backoff_init RETRY_INIT_GAP_SECONDS) w) as Hrun.
    destruct (launch_loop _ _ _ _ _ w) as [r w'].
    destruct Hrun as (evs & b' & Ht & _ & _ & Hrun).
    exists evs. split; [done|]. by eapply launch_run_signal.
  - intros e He. unfold _launch. cbn [launch_loop]. run. by rewrite He.
Qed.

(** C9 (as amended): the backoff object is made anew by every call of
    [_launch].  Whatever happened to the executor before, the gaps drawn
    during one call are the first gaps of a fresh
    [Backoff(RETRY_INIT_GAP_SECONDS)], each slept right after it is drawn. *)
Theorem launch_draws_from_fresh_backoff fuel max_retry raise_on_failure w :
  let '(_, w') := _launch fuel max_retry raise_on_failure w in
  ∃ evs, trace w' = trace w ++ evs
         ∧ gaps_of evs
           = backoff_gaps (length (gaps_of evs))
               (Backoff_init RETRY_INIT_GAP_SECONDS)
         ∧ gaps_slept evs.
Proof.
  unfold _launch.
  pose proof (launch_loop_run fuel max_retry raise_on_failure 0
                (Backoff_init RETRY_INIT_GAP_SECONDS) w) as Hrun.
  destruct (launch_loop _ _ _ _ _ w) as [r w'].
  destruct Hrun as (evs & b' & Ht & _ & _ & Hrun).
  exists evs. split; [done|]. by eapply launch_run_gaps.
Qed.

End Claims.

(** C6: [terminate_cluster] leaves the executor alone.  With no handle in
    the registry it returns without any teardown call.  With a handle it
    calls teardown until a call succeeds, and then returns, or until
    [max 1 max_retry] calls have failed, and then raises [RuntimeError]. *)
Theorem terminate_cluster_outcome max_retry w :
  let '(r, w') := terminate_cluster max_retry w in
  self w' = self w
  ∧ match get_handle_from_cluster_name_next (oracle w) 0%nat with
    | None => r = Ret tt ∧ trace w' = trace w ++ [EvGetHandle None]
    | Some h =>
      ∃ k last,
        trace w' = trace w ++ EvGetHandle (Some h)
                     :: replicate k (EvTeardown h false)
                     ++ [EvTeardown h last]
        ∧ (∀ i, (i < k)%nat → teardown_next (oracle w) i = false)
        ∧ teardown_next (oracle w) k = last
        ∧ r = (if last then Ret tt
               else Raise (RuntimeError (terminate_failed_message (self w))))
        ∧ (k < Z.to_nat (Z.max 1 max_retry))%nat
        ∧ (last = false → S k = Z.to_nat (Z.max 1 max_retry))
    end.
Proof.
  unfold terminate_cluster. run.
  destruct (get_handle_from_cluster_name_next (oracle w) 0%nat) as [h|]; cbn;
    [|done].
  match goal with |- context [teardown_loop ?f h ?m ?c ?w1] =>
    pose proof (teardown_loop_outcome f h m c w1 ltac:(lia)) as Ht;
    destruct (teardown_loop f h m c w1) as [r w'] end.
  destruct Ht as (Hs & He & k & last & Ht & Hfail & Hlast & Hr & Hk & Hn).
  cbn in Hs, He, Ht, Hfail, Hlast, Hr. rewrite Z.sub_0_r in *.
  split; [done|]. exists k, last. rewrite Ht, <- app_assoc. by split_and!.
Qed.

(** C8: [make] on a task with exactly one resource spec that names a
    registered recovery policy gives an executor of the class registered
    under that name, whose task has the one spec copied with the policy
    field cleared; with no or several specs, or with no policy name, it
    fails with [AssertionError]. *)
Theorem make_contract cluster_name task retry_until_up job_id :
  (∀ r name cls,
     resources task = [r] → spot_recovery r = Some name →
     SPOT_STRATEGIES !! name = Some cls →
     ∃ s, make cluster_name task retry_until_up job_id = inr s
          ∧ strategy s = cls
          ∧ dag s = [set_resources [copy_without_spot_recovery r] task]
          ∧ (∀ t r', t ∈ dag s → r' ∈ resources t →
               spot_recovery r' = None)
          ∧ s = __init__ cls cluster_name
                  (set_resources [copy_without_spot_recovery r] task)
                  retry_until_up job_id)
  ∧ (length (resources task) ≠ 1%nat
     ∨ (∃ r, resources task = [r] ∧ spot_recovery r = None) →
     ∃ msg, make cluster_name task retry_until_up job_id
            = inl (AssertionError msg)).
Proof.
  split.
  - intros r name cls Hr Hname Hcls. unfold make. rewrite Hr.
    cbn [length Nat.eqb negb]. rewrite Hname, Hcls.
    eexists. split_and!; try done.
    intros t r' Ht Hr'. cbn in Ht. apply list_elem_of_singleton in Ht as ->.
    cbn in Hr'. by apply list_elem_of_singleton in Hr' as ->.
  - intros [Hlen|(r & Hr & Hnone)]; unfold make.
    + destruct (resources task) as [|r [|r' rs]]; cbn in *; by eauto.
    + rewrite Hr. cbn. rewrite Hnone. by eauto.
Qed.

Section RecoveryClaims.
Context `{BackoffOps} `{SpotUtils}.

Ltac use_loop :=
  match goal with
  | |- context [cross_region_loop ?f ?w3] =>
    let Hl := fresh "Hl" in
    pose proof (cross_region_loop_summary f w3) as Hl;
    destruct (cross_region_loop f w3) as [r w'];
    destruct Hl as (evs & Hg & Hfirst)
  | |- context [failover_loop ?f ?h ?w3] =>
    let Hl := fresh "Hl" in
    pose proof (failover_loop_summary f h w3) as Hl;
    destruct (failover_loop f h w3) as [r w'];
    destruct Hl as (evs & Hg & Hfirst)
  end.

(** [CrossRegion.recover]: the blocked sets grow, and the first
    [sky.launch], if there is one, is given the sets as they are after the
    blocking that precedes the loop. *)
Lemma recover_cross_region_summary fuel w :
  let '(_, w') := recover_cross_region fuel w in
  ∃ evs, blocklist_grows w w' evs
    ∧ ∀ h given,
        get_handle_from_cluster_name_next (oracle w) 0%nat = Some h →
        first_launch evs = Some given →
        given = (match environ w !! "_CROSS_REGION" with
                 | Some _ => _blocked_regions (self w)
                             ∪ {[region (launched_resources h)]}
                 | None => _blocked_regions (self w)
                 end,
                 _blocked_zones (self w) ∪ {[zone (launched_resources h)]}).
Proof.
  unfold recover_cross_region. run.
  destruct (get_handle_from_cluster_name_next (oracle w) 0%nat) as [h|];
    destruct (cancel_jobs_next (oracle w) 0%nat) as [[]|]; cbn.
  all: try (eexists; split;
            [split; [cbn; by rewrite <- ?app_assoc|done]|done]).
  all: destruct (environ w !! "_CROSS_REGION") as [flag|] eqn:Eflag; cbn.
  all: use_loop; cbn in Hfirst.
  all: eexists; split;
    [eapply (blocklist_grows_trans w _ w' [_; _]); [|exact Hg];
     split; [cbn; by rewrite <- ?app_assoc | intros _; cbn; set_solver]|].
  all: intros h' given [= <-]; cbn; apply Hfirst.
Qed.

Lemma recover_failover_summary fuel w :
  let '(_, w') := recover_failover fuel w in
  ∃ evs, blocklist_grows w w' evs.
Proof.
  unfold recover_failover. run.
  destruct (get_handle_from_cluster_name_next (oracle w) 0%nat) as [h|];
    destruct (cancel_jobs_next (oracle w) 0%nat) as [[]|]; cbn.
  all: try (eexists; split; [cbn; by rewrite <- ?app_assoc|done]).
  all: use_loop.
  all: eexists;
    eapply (blocklist_grows_trans w _ w' [_; _]); [|exact Hg];
    split; [cbn; by rewrite <- ?app_assoc | intros _; cbn; set_solver].
Qed.

(** C4: across every operation of an executor the two blocked sets only
    grow, unless a provisioning failure in between signalled total
    exhaustion; and inside [_launch] the sets are what the trace says: the
    pair given to every [sky.launch] call is the current one, and it changes
    only at an exhaustion failure, where both sets become empty. *)
Theorem blocklist_grows_unless_exhausted fuel op max_retry raise_on_failure
    w :
  (let '(_, w') := run_operation fuel op w in
   ∃ evs, blocklist_grows w w' evs)
  ∧ (let '(_, w') := _launch fuel max_retry raise_on_failure w in
     ∃ evs, trace w' = trace w ++ evs
            ∧ launches_given evs (blocked (self w))
            ∧ blocked (self w') = blocked_after evs (blocked (self w))).
Proof.
  split.
  - destruct op as [| |m|m rf]; cbn [run_operation].
    + unfold launch. run. destruct (retry_until_up (self w));
        match goal with |- context [_launch ?f ?m ?rf w] =>
          pose proof (launch_summary f m rf w) as Hl;
          destruct (_launch f m rf w) as [[?| |] w']
        end; destruct Hl as (evs & Hg & _); by exists evs.
    + unfold recover. run. destruct (strategy (self w)).
      * pose proof (recover_failover_summary fuel w) as Hr.
        destruct (recover_failover fuel w) as [[?| |] w']; done.
      * pose proof (recover_cross_region_summary fuel w) as Hr.
        destruct (recover_cross_region fuel w) as [[?| |] w'];
          destruct Hr as (evs & Hg & _); by exists evs.
    + pose proof (terminate_cluster_quiet m w) as Hq.
      destruct (terminate_cluster m w) as [r w'].
      destruct Hq as (Hs & _ & evs & Ht & _).
      exists evs. split; [done|]. by rewrite Hs.
    + run. pose proof (launch_summary fuel m rf w) as Hl.
      destruct (_launch fuel m rf w) as [[?| |] w'];
        destruct Hl as (evs & Hg & _); by exists evs.
  - pose proof (launch_summary fuel max_retry raise_on_failure w) as Hl.
    destruct (_launch fuel max_retry raise_on_failure w) as [r w'].
    destruct Hl as (evs & [Ht _] & _ & Hs & Hgiven & _).
    exists evs. split_and!; try done. by rewrite Hs, blocked_with_blocked.
Qed.

(** C7: when [CrossRegion.recover] is called with the cluster's handle in
    the registry, the first [sky.launch] that follows is given the blocked
    zones with the launched zone added, and the blocked regions with the
    launched region added if [_CROSS_REGION] is set in the environment, and
    unchanged if it is not. *)
Theorem cross_region_blocks_region_before_relaunch fuel w h :
  strategy (self w) = CrossRegion →
  get_handle_from_cluster_name_next (oracle w) 0%nat = Some h →
  let '(_, w') := recover fuel w in
  ∃ evs, trace w' = trace w ++ evs
    ∧ ∀ regions zones,
        first_launch evs = Some (regions, zones) →
        zones = _blocked_zones (self w) ∪ {[zone (launched_resources h)]}
        ∧ regions = match environ w !! "_CROSS_REGION" with
                    | Some _ => _blocked_regions (self w)
                                ∪ {[region (launched_resources h)]}
                    | None => _blocked_regions (self w)
                    end.
Proof.
  intros Hcls Hh. unfold recover. run. rewrite Hcls.
  pose proof (recover_cross_region_summary fuel w) as Hr.
  destruct (recover_cross_region fuel w) as [r w'].
  destruct Hr as (evs & [Ht _] & Hfirst).
  exists evs. split; [done|]. intros regions zones Hf.
  by specialize (Hfirst h _ Hh Hf) as [= -> ->].
Qed.

(** C10: when the registry has no handle for the cluster, [recover] of
    either strategy passes [None] to [cancel_jobs] and then fails on
    [handle.launched_resources] with [AttributeError] (or with what
    [cancel_jobs] raised, if that is not a [CommandError]); the executor is
    untouched and nothing is torn down or launched. *)
Theorem recover_without_handle fuel w :
  get_handle_from_cluster_name_next (oracle w) 0%nat = None →
  let '(r, w') := recover fuel w in
  self w' = self w
  ∧ trace w' = trace w ++ [EvGetHandle None;
                           EvCancelJobs None (cancel_jobs_next (oracle w) 0%nat)]
  ∧ r = match cancel_jobs_next (oracle w) 0%nat with
        | None | Some CommandError =>
          Raise (AttributeError NONE_HAS_NO_LAUNCHED_RESOURCES)
        | Some e => Raise e
        end.
Proof.
  intros Hh. unfold recover, recover_failover, recover_cross_region. run.
  destruct (strategy (self w)); rewrite Hh;
    destruct (cancel_jobs_next (oracle w) 0%nat) as [[]|]; cbn;
    by rewrite <- ?app_assoc.
Qed.

End RecoveryClaims.

(** ** Concrete runs *)

Section Samples.
#[local] Existing Instance doubling_backoff.
#[local] Existing Instance sample_spot_utils.


(** C2: with [max_retry = 3], provisioning that always works and a cluster
    that is never UP afterwards, [_launch] has not ended after any number of
    rounds, and has called [sky.launch] once in each of them. *)
Theorem relaunch_not_bounded_by_max_retry (fuel : nat)
    (raise_on_failure : bool) :
  let '(r, w') :=
    _launch fuel (Some 3) raise_on_failure
      (world_of (sample_executor FailoverStrategyExecutor false)
         preempted_oracle) in
  r = Diverge ∧ count_launches (trace w') = fuel.
Proof.
  unfold _launch.
  pose proof (launch_loop_always_preempted fuel (Some 3) raise_on_failure 0
                (Backoff_init RETRY_INIT_GAP_SECONDS)
                (world_of (sample_executor FailoverStrategyExecutor false)
                   preempted_oracle)) as Hrun.
  destruct (launch_loop _ _ _ _ _ _) as [r w'].
  destruct Hrun as (-> & evs & Ht & Hn); [done|by split_and!|].
  split; [done|]. by rewrite Ht.
Qed.

(** C3, an instance: [max_retry = 1], no capacity: the first failure already
    reaches the bound and, in default mode, raises. *)
Lemma provisioning_failure_handling_witness :
  (launch_loop 1 (Some 1) true 0 (Backoff_init RETRY_INIT_GAP_SECONDS)
     (world_of (sample_executor FailoverStrategyExecutor false)
        no_capacity_oracle)).1
  = Raise (ResourcesUnavailableError (launch_failed_message (Some 1))).
Proof.
  pose proof (provisioning_failure_handling 0 (Some 1) true 0
                (Backoff_init RETRY_INIT_GAP_SECONDS)
                (world_of (sample_executor FailoverStrategyExecutor false)
                   no_capacity_oracle)
                "No capacity in us-central1-a" eq_refl eq_refl) as Hw.
  destruct (launch_loop _ _ _ _ _ _) as [r w'].
  destruct Hw as [(evs & _ & Hr) _]. cbn in Hr. by destruct Hr as [_ ->].
Defined.

(** C5, an instance: the signal handler raises at the first check, and
    [sky.launch] is never called. *)
Lemma signal_checked_before_every_attempt_witness :
  count_launches
    (trace (_launch 4 (Some 3) true
              (world_of (sample_executor FailoverStrategyExecutor false)
                 cancelled_oracle)).2)
  = 0%nat.
Proof.
  pose proof (proj2 (signal_checked_before_every_attempt 3 (Some 3) true
                       (world_of
                          (sample_executor FailoverStrategyExecutor false)
                          cancelled_oracle))
                _ eq_refl) as Hw.
  destruct (_launch _ _ _ _) as [r w'].
  destruct Hw as (_ & _ & Ht). cbn [snd]. by rewrite Ht.
Defined.

(** C6, an instance: the cluster is registered and teardown keeps failing:
    after three calls [terminate_cluster] raises. *)
Lemma terminate_cluster_outcome_witness :
  let '(r, w') :=
    terminate_cluster 3
      (world_of (sample_executor FailoverStrategyExecutor false)
         stuck_teardown_oracle) in
  r = Raise (RuntimeError "Failed to terminate the spot cluster spot-1.")
  ∧ trace w' = [EvGetHandle (Some sample_handle);
                EvTeardown sample_handle false;
                EvTeardown sample_handle false;
                EvTeardown sample_handle false].
Proof.
  pose proof (terminate_cluster_outcome 3
                (world_of (sample_executor FailoverStrategyExecutor false)
                   stuck_teardown_oracle)) as Hw.
  destruct (terminate_cluster _ _) as [r w'].
  destruct Hw as (_ & k & last & Ht & _ & <- & -> & _ & Hk).
  specialize (Hk eq_refl). assert (k = 2%nat) as -> by lia. by rewrite Ht.
Defined.

(** C8, an instance: the sample task names [FAILOVER]. *)
Lemma make_contract_witness :
  ∃ s, make "spot-1" sample_task false 7 = inr s
       ∧ strategy s = FailoverStrategyExecutor.
Proof.
  destruct (proj1 (make_contract "spot-1" sample_task false 7)
              sample_resources "FAILOVER" FailoverStrategyExecutor
              eq_refl eq_refl eq_refl) as (s & Hs & Hcls & _).
  by exists s.
Defined.

(** C7, an instance: with [_CROSS_REGION] set, the first relaunch of
    [CrossRegion.recover] is given the launched region and zone as
    blocked. *)
Lemma cross_region_blocks_region_witness :
  ∃ regions zones,
    first_launch (trace (recover 5 cross_region_world).2)
    = Some (regions, zones)
    ∧ "us-central1" ∈ regions ∧ "us-central1-a" ∈ zones.
Proof.
  pose proof (cross_region_blocks_region_before_relaunch 5
                cross_region_world sample_handle eq_refl eq_refl) as Hw.
  assert (first_launch (trace (recover 5 cross_region_world).2) ≠ None)
    as Hlaunched by (vm_compute; discriminate).
  destruct (recover 5 cross_region_world) as [r w'].
  destruct Hw as (evs & Ht & Hfirst). cbn [snd] in *.
  rewrite Ht in *. cbn [trace cross_region_world app] in *.
  destruct (first_launch evs) as [[regions zones]|]; [|done].
  exists regions, zones. destruct (Hfirst _ _ eq_refl) as [-> ->].
  split; [done|]. split; set_solver.
Defined.

(** C9, counterexample: one executor, one call of [recover].  Provisioning
    fails four times and then works: the first [_launch] draws the gaps 60
    and 120, and the second one starts again at 60. *)
Lemma backoff_restarts_within_one_recover :
  (let '(r, w') :=
     recover 5
       (world_of (sample_executor CrossRegion true) late_capacity_oracle) in
   (r, gaps_of (trace w')))
  = (Ret 1000, [60; 120; 60]).
Proof. vm_compute. reflexivity. Qed.

(** C10, an instance: no handle in the registry, [cancel_jobs] returns,
    [recover] fails on the missing handle. *)
Lemma recover_without_handle_witness :
  (recover 1
     (world_of (sample_executor FailoverStrategyExecutor false)
        quiet_oracle)).1
  = Raise (AttributeError NONE_HAS_NO_LAUNCHED_RESOURCES).
Proof.
  pose proof (recover_without_handle 1
                (world_of (sample_executor FailoverStrategyExecutor false)
                   quiet_oracle) eq_refl) as Hw.
  destruct (recover _ _) as [r w'].
  by destruct Hw as (_ & _ & ->).
Defined.

End Samples.

(** * Further properties *)

(** ** The registry and the factory *)

(** X1: a class statement that goes through registers the class under its
    name (replacing what was there), leaves every other name alone, and
    makes the name the default exactly when [default] is set; it is refused
    with [AssertionError] exactly when [default] is set and a default
    already exists. *)
Theorem init_subclass_registers cls name default g :
  match __init_subclass__ cls name default g with
  | inr g' =>
    strategies g' !! name = Some cls
    ∧ (∀ other, other ≠ name → strategies g' !! other = strategies g !! other)
    ∧ default_strategy g'
      = (if default then Some name else default_strategy g)
    ∧ (default = true → default_strategy g = None)
  | inl e =>
    e = AssertionError "Only one strategy can be default."
    ∧ default = true ∧ is_Some (default_strategy g)
  end.
Proof.
  unfold __init_subclass__.
  destruct default; [destruct (default_strategy g) as [d|] eqn:Ed|]; cbn.
  - by eauto.
  - rewrite lookup_insert_eq. split_and!; try done.
    intros other Hne. by rewrite lookup_insert_ne.
  - rewrite lookup_insert_eq. split_and!; try done.
    intros other Hne. by rewrite lookup_insert_ne.
Qed.

(** X2: class statements keep the default registered: if the default of a
    registry names a registered class, so does the default of the registry
    after one more class statement. *)
Theorem init_subclass_keeps_default_registered cls name default g g' :
  default_registered g →
  __init_subclass__ cls name default g = inr g' →
  default_registered g'.
Proof.
  intros Hg. unfold __init_subclass__.
  destruct default; [destruct (default_strategy g) as [d|] eqn:Ed|];
    intros [= <-]; intros d'; cbn.
  - intros [= <-]. rewrite lookup_insert_eq. by eauto.
  - intros Hd'. destruct (decide (name = d')) as [->|Hne].
    + rewrite lookup_insert_eq. by eauto.
    + rewrite lookup_insert_ne by done. by apply Hg.
Qed.

(** X2, an instance: the first class statement of the module, on the empty
    registry. *)
Lemma init_subclass_keeps_default_registered_witness :
  is_Some
    ((<["FAILOVER" := FailoverStrategyExecutor]> ∅
        : gmap string strategy_class) !! "FAILOVER").
Proof.
  assert (default_registered empty_registry) as Hg.
  { intros d. cbn. discriminate. }
  exact (init_subclass_keeps_default_registered FailoverStrategyExecutor
           "FAILOVER" true empty_registry
           {| strategies := <["FAILOVER" := FailoverStrategyExecutor]> ∅;
              default_strategy := Some "FAILOVER" |}
           Hg eq_refl "FAILOVER" eq_refl).
Defined.

Lemma SPOT_STRATEGIES_lookup name :
  SPOT_STRATEGIES !! name
  = if decide (name = "CROSS_REGION") then Some CrossRegion
    else if decide (name = "FAILOVER") then Some FailoverStrategyExecutor
    else None.
Proof.
  change SPOT_STRATEGIES
    with (<["CROSS_REGION" := CrossRegion]>
            (<["FAILOVER" := FailoverStrategyExecutor]>
               (∅ : gmap string strategy_class))).
  destruct (decide (name = "CROSS_REGION")) as [->|Hc].
  { by rewrite lookup_insert_eq. }
  rewrite lookup_insert_ne by done.
  destruct (decide (name = "FAILOVER")) as [->|Hf].
  { by rewrite lookup_insert_eq. }
  by rewrite lookup_insert_ne.
Qed.

(** X3: [make] gives an executor exactly for a task with one resource spec
    whose recovery policy is ["FAILOVER"] or ["CROSS_REGION"], and then the
    executor is of the matching class with both blocked sets empty; with one
    spec that names any other policy it fails with [KeyError] on that
    name. *)
Theorem make_succeeds_iff cluster_name task retry_until_up job_id :
  (∀ s, make cluster_name task retry_until_up job_id = inr s ↔
        ∃ r cls,
          resources task = [r]
          ∧ (spot_recovery r = Some "FAILOVER"
             ∧ cls = FailoverStrategyExecutor
             ∨ spot_recovery r = Some "CROSS_REGION" ∧ cls = CrossRegion)
          ∧ s = __init__ cls cluster_name
                  (set_resources [copy_without_spot_recovery r] task)
                  retry_until_up job_id)
  ∧ (∀ r name,
       resources task = [r] → spot_recovery r = Some name →
       name ≠ "FAILOVER" → name ≠ "CROSS_REGION" →
       make cluster_name task retry_until_up job_id = inl (KeyError name)).
Proof.
  split.
  - intros s. unfold make. split.
    + destruct (resources task) as [|r [|r' rs]]; cbn [length Nat.eqb negb];
        try done.
      destruct (spot_recovery r) as [name|] eqn:Ename; [|done].
      rewrite SPOT_STRATEGIES_lookup.
      repeat case_decide; subst; intros [= <-]; eexists _, _; by eauto.
    + intros (r & cls & -> & Hname & ->). cbn [length Nat.eqb negb].
      destruct Hname as [[-> ->]|[-> ->]]; by rewrite SPOT_STRATEGIES_lookup.
  - intros r name Hr Hname Hf Hc. unfold make. rewrite Hr.
    cbn [length Nat.eqb negb]. rewrite Hname, SPOT_STRATEGIES_lookup.
    by repeat case_decide.
Qed.

(** X4: the task inside an executor that [make] built no longer names a
    recovery policy, so giving it to [make] again fails with
    [AssertionError]. *)
Theorem make_not_repeatable cluster_name task retry_until_up job_id s
    cluster_name' retry_until_up' job_id' task' :
  make cluster_name task retry_until_up job_id = inr s →
  task' ∈ dag s →
  make cluster_name' task' retry_until_up' job_id'
  = inl (AssertionError "spot_recovery is required to use spot strategy.").
Proof.
  intros Hmake Hin. unfold make in Hmake.
  destruct (resources task) as [|r [|r' rs]]; cbn [length Nat.eqb negb] in *;
    try done.
  destruct (spot_recovery r) as [name|]; [|done].
  destruct (SPOT_STRATEGIES !! name) as [cls|]; [|done].
  injection Hmake as <-. cbn in Hin.
  by apply list_elem_of_singleton in Hin as ->.
Qed.

(** X4, an instance: the task of the sample executor. *)
Lemma make_not_repeatable_witness :
  make "spot-2"
    (set_resources [copy_without_spot_recovery sample_resources] sample_task)
    true 8
  = inl (AssertionError "spot_recovery is required to use spot strategy.").
Proof.
  apply (make_not_repeatable "spot-1" sample_task false 7
           (sample_executor FailoverStrategyExecutor false)).
  - reflexivity.
  - apply list_elem_of_singleton. reflexivity.
Defined.

(** ** The exhaustion test *)

Lemma string_app_cons c (a s : string) :
  String c a +:+ s = String c (a +:+ s).
Proof. reflexivity. Qed.

Lemma prefix_spec (a b : string) :
  String.prefix a b = true ↔ ∃ post, b = a +:+ post.
Proof.
  revert b. induction a as [|c a IH]; intros b.
  - destruct b; cbn; (split; [intros _; by eexists|done]).
  - destruct b as [|c' b]; cbn [String.prefix].
    + split; [done|]. by intros [post ?].
    + destruct (Ascii.ascii_dec c c') as [->|Hne].
      * rewrite IH. split; intros [post Hp]; exists post;
          rewrite string_app_cons in *; congruence.
      * split; [done|]. intros [post Hp].
        rewrite string_app_cons in Hp. congruence.
Qed.

(** X5: the substring test behind the exhaustion check holds exactly when
    the text contains the phrase: some text, the phrase, some text. *)
Theorem str_contains_spec (needle hay : string) :
  str_contains needle hay = true ↔
  ∃ pre post, hay = pre +:+ needle +:+ post.
Proof.
  induction hay as [|c hay IH]; cbn [str_contains].
  - rewrite orb_false_r, prefix_spec. split.
    + intros [post Hp]. by exists "", post.
    + intros ([|c pre] & post & Hp); [by exists post|].
      by rewrite string_app_cons in Hp.
  - rewrite orb_true_iff, prefix_spec, IH. split.
    + intros [[post Hp]|(pre & post & Hp)].
      * by exists "", post.
      * exists (String c pre), post. by rewrite string_app_cons, Hp.
    + intros ([|c' pre] & post & Hp).
      * left. by exists post.
      * right. rewrite string_app_cons in Hp. injection Hp as -> Hp.
        by exists pre, post.
Qed.

(** ** More on [_launch] *)

Section MoreLaunch.
Context `{BackoffOps} `{SpotUtils}.

Lemma tolerant_launch_outcome_cons job_id max_retry r e evs :
  tolerant_launch_outcome job_id max_retry r evs →
  tolerant_launch_outcome job_id max_retry r (e :: evs).
Proof.
  destruct r as [[t|]|x|]; cbn; [| | |done].
  - intros [s ?]. exists s. by apply ends_with_cons.
  - intros [(rs & zs & c & ?)|(rs & zs & msg & ? & ?)]; [left|right].
    + exists rs, zs, c. by apply ends_with_cons.
    + exists rs, zs, msg. split; [by apply ends_with_cons|done].
  - by apply ends_with_cons.
Qed.

Lemma tolerant_launch_outcome_app job_id max_retry r p evs :
  tolerant_launch_outcome job_id max_retry r evs →
  tolerant_launch_outcome job_id max_retry r (p ++ evs).
Proof.
  intros Hr. induction p as [|e p IH]; [done|].
  by apply tolerant_launch_outcome_cons.
Qed.

Lemma launch_run_tolerant_outcome job_id max_retry cnt b s evs r s' :
  launch_run job_id max_retry false cnt b s evs r s' →
  tolerant_launch_outcome job_id max_retry r evs.
Proof.
  induction 1 as [ | | cnt b s msg Hmax | | cnt b s record polls st t Hp
                 | | cnt b s record ]; cbn.
  - done.
  - apply ends_with_refl.
  - right. exists s.1, s.2, msg. split; [apply ends_with_cons, ends_with_refl|].
    destruct max_retry; by eauto.
  - by repeat apply tolerant_launch_outcome_cons.
  - exists st. do 2 apply ends_with_cons. do 2 apply ends_with_app.
    apply ends_with_refl.
  - do 2 apply tolerant_launch_outcome_cons.
    do 2 apply tolerant_launch_outcome_app.
    by repeat apply tolerant_launch_outcome_cons.
  - left. exists s.1, s.2, record. apply ends_with_cons, ends_with_refl.
Qed.

Lemma launch_tolerant fuel max_retry w :
  let '(r, w') := _launch fuel max_retry false w in
  ∃ evs b', trace w' = trace w ++ evs
    ∧ environ w' = environ w
    ∧ self w' = with_blocked b' (self w)
    ∧ tolerant_launch_outcome (_job_id (self w)) max_retry r evs.
Proof.
  unfold _launch.
  pose proof (launch_loop_run fuel max_retry false 0
                (Backoff_init RETRY_INIT_GAP_SECONDS) w) as Hrun.
  destruct (launch_loop _ _ _ _ _ w) as [r w'].
  destruct Hrun as (evs & b' & Ht & He & Hs & Hrun).
  exists evs, b'. split_and!; try done.
  by eapply launch_run_tolerant_outcome.
Qed.



(** *** Provisioning fails as long as the bound allows *)

Lemma launch_loop_gives_up fuel m raise_on_failure cnt b w :
  let n := Z.to_nat (Z.max 1 (m - cnt)) in
  (n ≤ fuel)%nat →
  provisioning_fails n (oracle w) →
  let '(r, w') := launch_loop fuel (Some m) raise_on_failure cnt b w in
  r = (if raise_on_failure
       then Raise (ResourcesUnavailableError (launch_failed_message (Some m)))
       else Ret None)
  ∧ same_identity (self w) (self w')
  ∧ get_handle_from_cluster_name_next (oracle w')
    = get_handle_from_cluster_name_next (oracle w)
  ∧ ∃ evs, trace w' = trace w ++ evs
           ∧ count_launches evs = n
           ∧ gaps_of evs = backoff_gaps (n - 1) b.
Proof.
  cbn zeta. revert cnt b w.
  induction fuel as [|fuel IH]; intros cnt b w Hfuel Ho; [lia|].
  destruct (Ho 0%nat ltac:(lia)) as [Hsig [msg Hmsg]].
  cbn [launch_loop]. run. rewrite Hsig. cbn. rewrite Hmsg. cbn.
  unfold max_retry_reached.
  case_bool_decide as Hmax.
  - replace (Z.to_nat (Z.max 1 (m - cnt))) with 1%nat by lia.
    destruct (str_contains EXHAUSTED_MESSAGE msg); cbn;
      destruct raise_on_failure; cbn; (split; [done|]);
      (split; [done|]); (split; [done|]); by trace_ext.
  - replace (Z.to_nat (Z.max 1 (m - cnt)))
      with (S (Z.to_nat (Z.max 1 (m - (cnt + 1))))) in * by lia.
    apply provisioning_fails_after in Ho.
    destruct (str_contains EXHAUSTED_MESSAGE msg); cbn;
      destruct (current_backoff b) as [gap b'] eqn:Eb; cbn;
      match goal with |- context [launch_loop fuel ?mr ?rf ?c ?b1 ?w1] =>
        specialize (IH c b1 w1 ltac:(lia) Ho);
        destruct (launch_loop fuel mr rf c b1 w1) as [r w']
      end;
      destruct IH as (-> & Hs & Hh & evs & Ht & Hn & Hg); cbn in Ht, Hs, Hh;
      (split; [done|]); (split; [done|]); (split; [done|]);
      rewrite Ht; trace_ext; cbn; rewrite Hn, Hg;
      (split; [done|]);
      (destruct (Z.to_nat (Z.max 1 (m - (cnt + 1)))) as [|n'] eqn:En;
       [lia|]); cbn; by rewrite Nat.sub_0_r, Eb.
Qed.


End MoreLaunch.

(** ** The job-checking loop *)

Section JobChecking.
Context `{BackoffOps} `{SpotUtils}.

Lemma job_starts_at_after k status o :
  job_starts_at (S k) status o →
  job_starts_at k status
    (after_get_job_status (after_refresh_cluster_status_handle o)).
Proof.
  intros (Hup & Hnone & Hstatus). split_and!; cbn; unfold tl_stream.
  - intros i Hi. apply Hup. lia.
  - intros i Hi. apply Hnone. lia.
  - done.
Qed.

Lemma job_check_loop_starts k status t fuel cnt w :
  job_starts_at k status (oracle w) →
  get_job_timestamp_next (oracle w) 0%nat = inr t →
  (k < fuel)%nat →
  cnt + Z.of_nat k < MAX_JOB_CHECKING_RETRY →
  let '(r, w') := job_check_loop fuel None cnt w in
  r = Ret (Returned t) ∧ self w' = self w ∧ environ w' = environ w
  ∧ trace w' = trace w ++ mjoin (replicate k poll_round)
                 ++ [EvRefresh (inr (Some global_user_state.UP));
                     EvSleep JOB_STARTED_STATUS_CHECK_GAP_SECONDS;
                     EvJobStatus (inr (Some status));
                     EvJobTimestamp (inr t)]
  ∧ get_handle_from_cluster_name_next (oracle w')
    = get_handle_from_cluster_name_next (oracle w).
Proof.
  revert fuel cnt w. induction k as [|k IH]; intros fuel cnt w Ho Ht Hk Hcnt;
    (destruct fuel as [|fuel]; [lia|]);
    pose proof Ho as (Hup & Hnone & Hstatus);
    cbn [job_check_loop job_not_started andb];
    rewrite bool_decide_eq_true_2 by lia; run;
    rewrite (Hup 0%nat) by lia; cbn;
    rewrite bool_decide_eq_false_2 by (intros Hn; by apply Hn); run.
  - rewrite Hstatus. cbn. rewrite Ht. cbn. by rewrite <- !app_assoc.
  - rewrite (Hnone 0%nat) by lia. cbn.
    apply job_starts_at_after in Ho.
    match goal with |- context [job_check_loop fuel None ?c ?w1] =>
      specialize (IH fuel c w1 Ho Ht ltac:(lia) ltac:(lia));
      destruct (job_check_loop fuel None c w1) as [r w']
    end.
    destruct IH as (-> & Hs & He & Htr & Hh). cbn in Hs, He, Htr, Hh.
    split_and!; try done. rewrite Htr. by rewrite <- !app_assoc.
Qed.

(** X9: when the signal check passes, provisioning works, the cluster stays
    UP and the job gets its first status at polling round [k] (counted from
    0, within the [MAX_JOB_CHECKING_RETRY] rounds), [_launch] returns the
    job's timestamp after that one attempt, whatever the status is (also
    [INIT] or [PENDING]), without touching the executor. *)
Theorem launch_returns_timestamp (k : nat) status t fuel max_retry
    raise_on_failure w :
  signal_handler_next (oracle w) 0%nat = None →
  sky_launch_next (oracle w) 0%nat = None →
  job_starts_at k status (oracle w) →
  get_job_timestamp_next (oracle w) 0%nat = inr t →
  (k < Z.to_nat MAX_JOB_CHECKING_RETRY)%nat →
  let '(r, w') := _launch (S fuel) max_retry raise_on_failure w in
  r = Ret (Some t) ∧ self w' = self w
  ∧ trace w' = trace w ++ EvSignal None
                 :: EvLaunch (_blocked_regions (self w))
                      (_blocked_zones (self w)) None
                 :: record_events (_job_id (self w))
                      (get_cluster_from_name_next (oracle w) 0%nat)
                 ++ mjoin (replicate k poll_round)
                 ++ [EvRefresh (inr (Some global_user_state.UP));
                     EvSleep JOB_STARTED_STATUS_CHECK_GAP_SECONDS;
                     EvJobStatus (inr (Some status));
                     EvJobTimestamp (inr t)].
Proof.
  intros Hsig Hlaunch Ho Ht Hk. unfold _launch. cbn [launch_loop]. run.
  rewrite Hsig. cbn. rewrite Hlaunch. cbn.
  destruct (get_cluster_from_name_next (oracle w) 0%nat) as [n|]; cbn;
    match goal with |- context [job_check_loop ?f None 0 ?w1] =>
      pose proof (job_check_loop_starts k status t f 0 w1 Ho Ht Hk
                    ltac:(lia)) as Hj;
      destruct (job_check_loop f None 0 w1) as [r w']
    end;
    destruct Hj as (-> & Hs & _ & Htr & _); cbn in Hs, Htr;
    split_and!; try done; rewrite Htr; by rewrite <- !app_assoc.
Qed.

Lemma job_check_loop_protocol fuel cnt w :
  (Z.to_nat (MAX_JOB_CHECKING_RETRY - cnt) ≤ fuel)%nat →
  let '(r, w') := job_check_loop fuel None cnt w in
  (∃ out, r = Ret out)
  ∧ ∃ evs, trace w' = trace w ++ evs
      ∧ poll_protocol Idle false evs
      ∧ (count_refreshes evs
         ≤ Z.to_nat (MAX_JOB_CHECKING_RETRY - cnt))%nat.
Proof.
  revert cnt w. induction fuel as [|fuel IH]; intros cnt w Hfuel.
  - cbn. case_bool_decide; cbn; [lia|].
    split; [by eauto|]. exists []. rewrite app_nil_r. split_and!; try done.
    cbn. lia.
  - cbn [job_check_loop job_not_started andb].
    case_bool_decide as Hlt; cbn; cycle 1.
    { split; [by eauto|]. exists []. rewrite app_nil_r. split_and!; try done.
      cbn. lia. }
    run.
    destruct (refresh_cluster_status_handle_next (oracle w) 0%nat)
      as [e|cs] eqn:Eref; cbn.
    { split; [by eauto|]. trace_ext. cbn. split_and!; try done. lia. }
    case_bool_decide as Hup; cbn.
    { split; [by eauto|]. trace_ext. cbn. split_and!; try done. lia. }
    subst cs.
    destruct (get_job_status_next (oracle w) 0%nat) as [e|[s|]] eqn:Ejs; cbn.
    { split; [by eauto|]. trace_ext. cbn.
      rewrite bool_decide_eq_true_2 by done. split_and!; try done. lia. }
    { destruct (get_job_timestamp_next (oracle w) 0%nat) as [e|t]; cbn;
        (split; [by eauto|]); trace_ext; cbn;
        rewrite bool_decide_eq_true_2 by done; split_and!; try done; lia. }
    match goal with |- context [job_check_loop fuel None ?c ?w1] =>
      specialize (IH c w1 ltac:(lia));
      destruct (job_check_loop fuel None c w1) as [r w']
    end.
    destruct IH as (Hout & evs & Ht & Hp & Hn). cbn in Ht.
    split; [done|]. rewrite Ht. trace_ext. cbn.
    rewrite bool_decide_eq_true_2 by done. split_and!; try done. lia.
Qed.

(** X10: the job-checking loop, as [_launch] enters it, always ends by
    itself without an exception, after at most [MAX_JOB_CHECKING_RETRY]
    status refreshes; it asks for the job status only right after a refresh
    reported UP and the poll gap was slept, and for the timestamp only right
    after a job status was read. *)
Theorem job_check_loop_bounded w :
  let '(r, w') :=
    job_check_loop (Z.to_nat MAX_JOB_CHECKING_RETRY) None 0 w in
  (∃ out, r = Ret out)
  ∧ ∃ evs, trace w' = trace w ++ evs
      ∧ poll_protocol Idle false evs
      ∧ (count_refreshes evs ≤ Z.to_nat MAX_JOB_CHECKING_RETRY)%nat.
Proof.
  pose proof (job_check_loop_protocol (Z.to_nat MAX_JOB_CHECKING_RETRY) 0 w
                ltac:(lia)) as Hp.
  by rewrite Z.sub_0_r in Hp.
Qed.

End JobChecking.

(** ** Telemetry of [_launch] *)

Section Telemetry.
Context `{BackoffOps} `{SpotUtils}.

Lemma tried_locations_recorded_polls job_id xs rest :
  forallb poll_event xs = true →
  tried_locations_recorded job_id NoRecord rest →
  tried_locations_recorded job_id NoRecord (xs ++ rest).
Proof.
  induction xs as [|e xs IH]; [done|].
  cbn [forallb app]. intros [He Hx]%andb_prop.
  destruct e; try done; cbn; auto.
Qed.

Lemma launch_run_tried_locations job_id max_retry rf cnt b s evs r s' :
  launch_run job_id max_retry rf cnt b s evs r s' →
  tried_locations_recorded job_id NoRecord evs.
Proof.
  induction 1 as [ | | | cnt b s msg evs r s' Hmax Hrun IH
                 | cnt b s record polls st t Hp
                 | cnt b s record polls f evs r s' Hp Hpf Hf Hrun IH
                 | cnt b s record ]; cbn; try done.
  - destruct record; cbn; (try split_and!; try done);
      by apply tried_locations_recorded_polls.
  - assert (tried_locations_recorded job_id NoRecord
              (f :: EvBackoff (current_backoff b).1
                 :: EvSleep (current_backoff b).1 :: evs)) as Hrest
      by (by destruct f).
    destruct record; cbn; (try split_and!; try done);
      by apply tried_locations_recorded_polls.
  - pose proof (poll_rounds_are_polls (Z.to_nat MAX_JOB_CHECKING_RETRY)) as Hp.
    rewrite <- (app_nil_r (mjoin _)).
    destruct record; cbn; (try split_and!; try done);
      by apply tried_locations_recorded_polls.
Qed.

(** X11: in every run of [_launch] the cluster record is read right after
    every [sky.launch] that returned and at no other time, and when there is
    a record its [num_tried_locations] is stored for this executor's job
    right away; nothing is read or stored after a failed launch. *)
Theorem launch_records_tried_locations fuel max_retry raise_on_failure w :
  let '(_, w') := _launch fuel max_retry raise_on_failure w in
  ∃ evs, trace w' = trace w ++ evs
         ∧ tried_locations_recorded (_job_id (self w)) NoRecord evs.
Proof.
  unfold _launch.
  pose proof (launch_loop_run fuel max_retry raise_on_failure 0
                (Backoff_init RETRY_INIT_GAP_SECONDS) w) as Hrun.
  destruct (launch_loop _ _ _ _ _ w) as [r w'].
  destruct Hrun as (evs & b' & Ht & _ & _ & Hrun).
  exists evs. split; [done|]. by eapply launch_run_tried_locations.
Qed.

End Telemetry.

(** ** More on [terminate_cluster] *)

(** X12: [terminate_cluster] twice in a row: when the first call finds the
    handle and its first teardown succeeds, and the registry then has no
    handle, the second call is a lookup and nothing else, and both
    return. *)
Theorem terminate_cluster_twice max_retry max_retry' w h :
  get_handle_from_cluster_name_next (oracle w) 0%nat = Some h →
  teardown_next (oracle w) 0%nat = true →
  get_handle_from_cluster_name_next (oracle w) 1%nat = None →
  let '(r, w') :=
    (terminate_cluster max_retry;; terminate_cluster max_retry') w in
  r = Ret tt ∧ self w' = self w
  ∧ trace w' = trace w ++ [EvGetHandle (Some h); EvTeardown h true;
                           EvGetHandle None].
Proof.
  intros Hh Ht Hnone. unfold terminate_cluster. run. rewrite Hh. cbn.
  destruct (Z.to_nat (Z.max 1 max_retry)) as [|fuel] eqn:Ef; [lia|].
  cbn [teardown_loop]. run. rewrite Ht. cbn. unfold tl_stream.
  rewrite Hnone. cbn. by rewrite <- !app_assoc.
Qed.

(** ** More on [recover] *)

Lemma same_identity_refl s : same_identity s s.
Proof. done. Qed.

Lemma same_identity_trans s1 s2 s3 :
  same_identity s1 s2 → same_identity s2 s3 → same_identity s1 s3.
Proof. intros (?&?&?&?&?) (?&?&?&?&?). split_and!; by etrans. Qed.

Lemma same_identity_with_blocked b s : same_identity s (with_blocked b s).
Proof. done. Qed.

Lemma recover_raises_same s s' e evs :
  same_identity s s' → recover_raises s' e evs → recover_raises s e evs.
Proof.
  intros (_ & Hdag & Hname & Hretry & _). unfold recover_raises.
  unfold terminate_failed_message. by rewrite Hdag, Hname, Hretry.
Qed.

Lemma recover_raises_app s e p evs :
  recover_raises s e evs → recover_raises s e (p ++ evs).
Proof.
  unfold recover_raises.
  intros [?|[[? [h ?]]|[?|[[? ?]|[[h [? ?]]|?]]]]].
  - left. by apply ends_with_app.
  - right. left. split; [done|]. exists h. by apply ends_with_app.
  - by eauto.
  - do 3 right. left. split; [done|]. apply elem_of_app. by right.
  - do 4 right. left. exists h. split; [|done].
    apply elem_of_app. by right.
  - by eauto 10.
Qed.

Section MoreRecovery.
Context `{BackoffOps} `{SpotUtils}.

Lemma recovery_outcome_same s s' r evs :
  same_identity s s' → recovery_outcome s' r evs → recovery_outcome s r evs.
Proof. destruct r; cbn; [done| |done]. apply recover_raises_same. Qed.

Lemma recovery_outcome_app s r p evs :
  recovery_outcome s r evs → recovery_outcome s r (p ++ evs).
Proof.
  destruct r; cbn; [|apply recover_raises_app|done].
  intros [st ?]. exists st. by apply ends_with_app.
Qed.

Lemma terminate_cluster_raises max_retry w :
  let '(r, w') := terminate_cluster max_retry w in
  self w' = self w ∧ environ w' = environ w
  ∧ ∃ evs, trace w' = trace w ++ evs
      ∧ match r with
        | Ret _ => True
        | Raise e => recover_raises (self w) e evs
        | Diverge => False
        end.
Proof.
  unfold terminate_cluster. run.
  destruct (get_handle_from_cluster_name_next (oracle w) 0%nat) as [h|]; cbn.
  - match goal with |- context [teardown_loop ?f h ?m ?c ?w1] =>
      pose proof (teardown_loop_outcome f h m c w1 ltac:(lia)) as Ht;
      destruct (teardown_loop f h m c w1) as [r w'] end.
    destruct Ht as (Hs & He & k & last & Ht & _ & _ & -> & _).
    cbn in Hs, He, Ht. same_state. rewrite Ht. trace_ext.
    destruct last; [done|]. right. left. split; [done|]. exists h.
    apply ends_with_cons, ends_with_app, ends_with_refl.
  - same_state. by trace_ext.
Qed.

Ltac use_terminate' :=
  match goal with
  | |- context [terminate_cluster ?m ?w] =>
    let Hq := fresh "Hq" in
    pose proof (terminate_cluster_raises m w) as Hq;
    destruct (terminate_cluster m w) as [[[]|?|] w1];
    destruct Hq as (Hs1 & He1 & evs1 & Ht1 & Hr1); cbn; [| |done]
  end.

Ltac use_launch' :=
  match goal with
  | |- context [_launch ?f ?m false ?w1] =>
    let Hl := fresh "Hl" in
    pose proof (launch_tolerant f m w1) as Hl;
    destruct (_launch f m false w1) as [[[?|]|?|] w2];
    destruct Hl as (evs2 & b2 & Ht2 & He2 & Hs2 & Hr2); cbn
  end.

Ltac solve_identity :=
  unfold same_identity; cbn;
  repeat match goal with
         | Hs : self _ = _ |- _ => rewrite ?Hs in *; clear Hs
         end;
  cbn in *; by split_and!.

Lemma cross_region_loop_outcome fuel w :
  let '(r, w') := cross_region_loop fuel w in
  ∃ evs, trace w' = trace w ++ evs
    ∧ environ w' = environ w
    ∧ same_identity (self w) (self w')
    ∧ recovery_outcome (self w) r evs.
Proof.
  revert w. induction fuel as [|fuel IH]; intros w.
  { cbn. exists []. by rewrite app_nil_r. }
  cbn [cross_region_loop]. run. use_terminate'.
  2: { exists evs1. by rewrite Hs1. }
  use_launch'.
  1,3,4: exists (evs1 ++ evs2); rewrite Ht2, Ht1, He2, He1, Hs2, Hs1,
           app_assoc; split_and!; try done.
  - destruct Hr2 as [st Hr2]. exists st. by apply ends_with_app.
  - left. by apply ends_with_app.
  - run.
    destruct (get_handle_from_cluster_name_next (oracle w2) 0%nat) as [h|];
      cbn; destruct (retry_until_up (self w2)) eqn:Eretry; cbn.
    1,3: match goal with |- context [cross_region_loop ?f ?w3] =>
           specialize (IH w3); destruct (cross_region_loop f w3) as [r w'];
           destruct IH as (evs4 & Ht4 & He4 & Hs4 & Hr4);
           apply (recovery_outcome_same (self w)) in Hr4;
             [|solve_identity];
           apply (same_identity_trans (self w)) in Hs4;
             [|solve_identity];
           cbn in Ht4, He4
         end.
    all: rewrite ?Ht4, ?He4, Ht2, Ht1, He2, He1; trace_ext.
    all: split; [done|split]; try done.
    all: try (do 2 apply recovery_outcome_app;
              apply (recovery_outcome_app _ _ [_; _]), Hr4).
    all: try solve_identity.
    all: right; right; left; split; [done|].
    all: by rewrite Hs2, Hs1 in Eretry.
Qed.

Lemma blocked_after_regions evs b : (blocked_after evs b).1 ⊆ b.1.
Proof.
  revert b. induction evs as [|e evs IH]; intros b; [done|].
  destruct e; cbn; try apply IH.
  destruct (exhausted r); [|apply IH].
  etrans; [apply IH|]. cbn. set_solver.
Qed.

Lemma launch_regions fuel max_retry raise_on_failure w :
  let '(_, w') := _launch fuel max_retry raise_on_failure w in
  _blocked_regions (self w') ⊆ _blocked_regions (self w).
Proof.
  pose proof (launch_summary fuel max_retry raise_on_failure w) as Hl.
  destruct (_launch fuel max_retry raise_on_failure w) as [r w'].
  destruct Hl as (evs & _ & _ & -> & _). cbn.
  apply (blocked_after_regions evs (blocked (self w))).
Qed.

Lemma failover_loop_no_handle fuel w :
  let '(r, w') := failover_loop fuel None w in
  w' = w
  ∧ match r with
    | Ret _ => False
    | Raise e =>
      e = AttributeError NONE_HAS_NO_LAUNCHED_RESOURCES
      ∨ (e = IndexError "list index out of range"
         ∧ ∀ task, head (dag (self w)) = Some task → resources task = [])
    | Diverge => fuel = 0%nat
    end.
Proof.
  destruct fuel as [|fuel]; [done|]. cbn [failover_loop]. run.
  destruct (dag (self w)) as [|task tasks]; cbn.
  { split; [done|]. by right. }
  destruct (resources task) as [|res ress] eqn:Eres; cbn.
  { split; [done|]. right. split; [done|]. by intros ? [= <-]. }
  split; [done|]. by left.
Qed.

Lemma failover_loop_outcome fuel h w :
  let '(r, w') := failover_loop fuel (Some h) w in
  ∃ evs, trace w' = trace w ++ evs
    ∧ environ w' = environ w
    ∧ same_identity (self w) (self w')
    ∧ _blocked_regions (self w') ⊆ _blocked_regions (self w)
    ∧ recovery_outcome (self w) r evs.
Proof.
  revert h w. induction fuel as [|fuel IH]; intros h0 w.
  { cbn. exists []. by rewrite app_nil_r. }
  cbn [failover_loop]. run.
  destruct (dag (self w)) as [|task tasks] eqn:Edag; cbn.
  { exists []. rewrite app_nil_r. split_and!; try done.
    do 5 right. split; [done|]. by rewrite Edag. }
  destruct (resources task) as [|res ress] eqn:Eres; cbn.
  { exists []. rewrite app_nil_r. split_and!; try done.
    do 5 right. split; [done|]. rewrite Edag. by intros ? [= <-]. }
  use_terminate'.
  2: { exists evs1. by rewrite Hs1. }
  match goal with |- context [_launch ?f ?m false ?w1] =>
    pose proof (launch_regions f m false w1) as Hreg
  end.
  use_launch'; rewrite Hs1 in Hreg.
  1,3,4: exists (evs1 ++ evs2); rewrite Ht2, Ht1, He2, He1, Hs2, Hs1,
           app_assoc; rewrite Hs2, Hs1 in Hreg; split_and!; try done.
  - destruct Hr2 as [st Hr2]. exists st. by apply ends_with_app.
  - left. by apply ends_with_app.
  - run.
    destruct (get_handle_from_cluster_name_next (oracle w2) 0%nat) as [h|];
      cbn; destruct (retry_until_up (self w2)) eqn:Eretry; cbn.
    + match goal with |- context [failover_loop ?f (Some h) ?w3] =>
        specialize (IH h w3); destruct (failover_loop f (Some h) w3)
          as [r w'];
        destruct IH as (evs4 & Ht4 & He4 & Hs4 & Hreg4 & Hr4);
        apply (recovery_outcome_same (self w)) in Hr4; [|solve_identity];
        apply (same_identity_trans (self w)) in Hs4; [|solve_identity];
        cbn in Ht4, He4, Hreg4
      end.
      rewrite Ht4, He4, Ht2, Ht1, He2, He1. trace_ext.
      split_and!; try done; [by etrans|].
      do 2 apply recovery_outcome_app.
      apply (recovery_outcome_app _ _ [_; _]), Hr4.
    + rewrite Ht2, Ht1, He2, He1. trace_ext.
      split_and!; try done; [solve_identity|].
      right; right; left. split; [done|]. by rewrite Hs2, Hs1 in Eretry.
    + match goal with |- context [failover_loop ?f None ?w3] =>
        pose proof (failover_loop_no_handle f w3) as Hno;
        destruct (failover_loop f None w3) as [r w'];
        destruct Hno as [-> Hr4]; cbn in *
      end.
      rewrite Ht2, Ht1, He2, He1. trace_ext.
      split_and!; try done; [solve_identity|].
      destruct r as [t|e|]; [done| |done]. cbn.
      destruct Hr4 as [->|[-> Hdag]].
      * do 3 right. left. split; [done|].
        rewrite !elem_of_app. do 2 right. by left.
      * do 5 right. split; [done|]. by rewrite Hs2, Hs1 in Hdag.
    + rewrite Ht2, Ht1, He2, He1. trace_ext.
      split_and!; try done; [solve_identity|].
      right; right; left. split; [done|]. by rewrite Hs2, Hs1 in Eretry.
Qed.

Lemma recover_cross_region_outcome fuel w :
  let '(r, w') := recover_cross_region fuel w in
  ∃ evs, trace w' = trace w ++ evs
    ∧ environ w' = environ w
    ∧ same_identity (self w) (self w')
    ∧ recovery_outcome (self w) r evs.
Proof.
  unfold recover_cross_region. run.
  destruct (get_handle_from_cluster_name_next (oracle w) 0%nat) as [h|];
    destruct (cancel_jobs_next (oracle w) 0%nat) as [e|] eqn:Ecancel;
    [destruct (decide (e = CommandError)) as [->|Hne]| |
     destruct (decide (e = CommandError)) as [->|Hne]|]; cbn.
  2: { destruct e; try done; trace_ext; (split_and!; try done);
       do 4 right; left; eexists; (split; [|done]);
       apply list_elem_of_In; cbn; right; left; reflexivity. }
  4: { destruct e; try done; trace_ext; (split_and!; try done);
       do 4 right; left; eexists; (split; [|done]);
       apply list_elem_of_In; cbn; right; left; reflexivity. }
  3,4: trace_ext; (split_and!; try done); do 3 right; left;
       (split; [done|]); set_solver.
  all: destruct (environ w !! "_CROSS_REGION") as [flag|]; cbn.
  all: match goal with |- context [cross_region_loop ?f ?w3] =>
         pose proof (cross_region_loop_outcome f w3) as Hl;
         destruct (cross_region_loop f w3) as [r w'];
         destruct Hl as (evs & Ht & He & Hs & Hr);
         apply (recovery_outcome_same (self w)) in Hr; [|done];
         cbn in Ht, He, Hs
       end.
  all: rewrite Ht; trace_ext; split_and!; try done.
  all: apply (recovery_outcome_app _ _ [_; _]), Hr.
Qed.

Lemma recover_failover_outcome fuel w :
  let '(r, w') := recover_failover fuel w in
  ∃ evs, trace w' = trace w ++ evs
    ∧ environ w' = environ w
    ∧ same_identity (self w) (self w')
    ∧ _blocked_regions (self w') ⊆ _blocked_regions (self w)
    ∧ recovery_outcome (self w) r evs.
Proof.
  unfold recover_failover. run.
  destruct (get_handle_from_cluster_name_next (oracle w) 0%nat) as [h|];
    destruct (cancel_jobs_next (oracle w) 0%nat) as [e|] eqn:Ecancel;
    [destruct (decide (e = CommandError)) as [->|Hne]| |
     destruct (decide (e = CommandError)) as [->|Hne]|]; cbn.
  2: { destruct e; try done; trace_ext; (split_and!; try done);
       do 4 right; left; eexists; (split; [|done]);
       apply list_elem_of_In; cbn; right; left; reflexivity. }
  4: { destruct e; try done; trace_ext; (split_and!; try done);
       do 4 right; left; eexists; (split; [|done]);
       apply list_elem_of_In; cbn; right; left; reflexivity. }
  3,4: trace_ext; (split_and!; try done); do 3 right; left;
       (split; [done|]); set_solver.
  all: match goal with |- context [failover_loop ?f (Some ?h') ?w3] =>
         pose proof (failover_loop_outcome f h' w3) as Hl;
         destruct (failover_loop f (Some h') w3) as [r w'];
         destruct Hl as (evs & Ht & He & Hs & Hreg & Hr);
         apply (recovery_outcome_same (self w)) in Hr; [|done];
         cbn in Ht, He, Hs, Hreg
       end.
  all: rewrite Ht; trace_ext; split_and!; try done.
  all: apply (recovery_outcome_app _ _ [_; _]), Hr.
Qed.

Lemma recover_result fuel w :
  let '(r, w') := recover fuel w in
  ∃ evs, trace w' = trace w ++ evs
    ∧ environ w' = environ w
    ∧ same_identity (self w) (self w')
    ∧ recovery_outcome (self w) r evs.
Proof.
  unfold recover. run. destruct (strategy (self w)).
  - pose proof (recover_failover_outcome fuel w) as Hr.
    destruct (recover_failover fuel w) as [r w'].
    destruct Hr as (evs & ? & ? & ? & _ & ?). by exists evs.
  - apply recover_cross_region_outcome.
Qed.

(** X13: what [recover] can end with, for both strategies.  It returns a
    timestamp only when that was read right after the cluster was seen UP
    and the job had a status.  An exception is the signal check's, the
    [RuntimeError] of a teardown that failed for the last time,
    [ResourcesUnavailableError] when [retry_until_up] is off,
    [AttributeError] after a registry lookup that found no handle, what
    [cancel_jobs] raised other than [CommandError], or [IndexError] for an
    executor whose task has no resources. *)
Theorem recover_outcome fuel w :
  let '(r, w') := recover fuel w in
  ∃ evs, trace w' = trace w ++ evs ∧ recovery_outcome (self w) r evs.
Proof.
  pose proof (recover_result fuel w) as Hr.
  destruct (recover fuel w) as [r w'].
  destruct Hr as (evs & ? & _ & _ & ?). by exists evs.
Qed.

(** X14: [FailoverStrategyExecutor.recover] never adds a region to the
    blocked regions: at its end they are among those it started with. *)
Theorem failover_never_blocks_region fuel w :
  strategy (self w) = FailoverStrategyExecutor →
  let '(_, w') := recover fuel w in
  _blocked_regions (self w') ⊆ _blocked_regions (self w).
Proof.
  intros Hcls. unfold recover. run. rewrite Hcls.
  pose proof (recover_failover_outcome fuel w) as Hr.
  destruct (recover_failover fuel w) as [r w'].
  by destruct Hr as (evs & _ & _ & _ & ? & _).
Qed.

(** X15: no operation of an executor changes its class, its task, its
    cluster name, its [retry_until_up] flag or its job id, nor the process
    environment: only the blocked sets, the collaborators and the trace
    move. *)
Theorem operations_keep_identity fuel op w :
  let '(_, w') := run_operation fuel op w in
  environ w' = environ w ∧ same_identity (self w) (self w').
Proof.
  destruct op as [| |m|m rf]; cbn [run_operation].
  - unfold launch, _launch. run. destruct (retry_until_up (self w));
      match goal with |- context [launch_loop ?f ?m ?rf ?c ?b ?w] =>
        pose proof (launch_loop_run f m rf c b w) as Hrun;
        destruct (launch_loop f m rf c b w) as [[?| |] w']
      end; destruct Hrun as (evs & b' & _ & He & -> & _); done.
  - pose proof (recover_result fuel w) as Hr. run.
    destruct (recover fuel w) as [[?| |] w'];
      by destruct Hr as (evs & _ & ? & ? & _).
  - pose proof (terminate_cluster_quiet m w) as Hq.
    destruct (terminate_cluster m w) as [r w'].
    destruct Hq as (Hs & He & _). by rewrite Hs.
  - unfold _launch. run.
    pose proof (launch_loop_run fuel m rf 0
                  (Backoff_init RETRY_INIT_GAP_SECONDS) w) as Hrun.
    destruct (launch_loop _ _ _ _ _ w) as [[?| |] w'];
      destruct Hrun as (evs & b' & _ & He & -> & _); done.
Qed.

Lemma count_launches_app xs ys :
  count_launches (xs ++ ys) = (count_launches xs + count_launches ys)%nat.
Proof.
  induction xs as [|e xs IH]; [done|]. destruct e; cbn; by rewrite ?IH.
Qed.

Lemma polls_are_launch_events xs :
  forallb poll_event xs = true → forallb launch_event xs = true.
Proof.
  induction xs as [|e xs IH]; [done|]. cbn.
  intros [He Hx]%andb_prop. rewrite IH by done. by destruct e.
Qed.

Lemma launch_run_events job_id max_retry rf cnt b s evs r s' :
  launch_run job_id max_retry rf cnt b s evs r s' →
  forallb launch_event evs = true.
Proof.
  induction 1 as [ | | | cnt b s msg evs r s' Hmax Hrun IH
                 | cnt b s record polls st t Hp
                 | cnt b s record polls f evs r s' Hp Hpf Hf Hrun IH
                 | cnt b s record ]; cbn; try done.
  - rewrite !forallb_app, (polls_are_launch_events polls) by done.
    by destruct record.
  - rewrite !forallb_app, (polls_are_launch_events polls) by done. cbn.
    rewrite IH. destruct record; cbn; by destruct f.
  - rewrite !forallb_app,
      (polls_are_launch_events (mjoin (replicate _ poll_round)))
      by apply poll_rounds_are_polls.
    by destruct record.
Qed.

(** X16: [_launch] never looks up the cluster handle, never tears the
    cluster down and never cancels jobs: when the job checks find the
    cluster lost, the next [sky.launch] is issued on the same cluster name
    without a teardown in between. *)
Theorem launch_never_tears_down fuel max_retry raise_on_failure w :
  let '(_, w') := _launch fuel max_retry raise_on_failure w in
  ∃ evs, trace w' = trace w ++ evs ∧ forallb launch_event evs = true.
Proof.
  unfold _launch.
  pose proof (launch_loop_run fuel max_retry raise_on_failure 0
                (Backoff_init RETRY_INIT_GAP_SECONDS) w) as Hrun.
  destruct (launch_loop _ _ _ _ _ w) as [r w'].
  destruct Hrun as (evs & b' & Ht & _ & _ & Hrun).
  exists evs. split; [done|]. by eapply launch_run_events.
Qed.

(** X17: [FailoverStrategyExecutor.recover] with [retry_until_up] does not
    survive a round that leaves no handle behind: when the handle is there
    at the start, the first teardown succeeds, the three provisioning
    attempts of the first round fail and the registry then has no handle,
    the second round fails on [handle.launched_resources] with
    [AttributeError] instead of retrying. *)
Theorem failover_recover_fails_without_handle fuel w h h1 :
  retry_until_up (self w) = true →
  (∃ task, head (dag (self w)) = Some task ∧ resources task ≠ []) →
  get_handle_from_cluster_name_next (oracle w) 0%nat = Some h →
  cancel_jobs_next (oracle w) 0%nat = None →
  get_handle_from_cluster_name_next (oracle w) 1%nat = Some h1 →
  teardown_next (oracle w) 0%nat = true →
  get_handle_from_cluster_name_next (oracle w) 2%nat = None →
  provisioning_fails 3 (oracle w) →
  (4 ≤ fuel)%nat →
  let '(r, w') := recover_failover fuel w in
  r = Raise (AttributeError NONE_HAS_NO_LAUNCHED_RESOURCES)
  ∧ ∃ evs, trace w' = trace w ++ evs ∧ count_launches evs = 3%nat.
Proof.
  intros Hretry (task & Hdag & Hres) Hh Hcancel Hh1 Htear Hh2 Ho Hfuel.
  destruct fuel as [|fuel]; [lia|].
  unfold recover_failover. run. rewrite Hh, Hcancel. cbn.
  cbn [failover_loop]. run.
  destruct (dag (self w)) as [|task' tasks] eqn:Edag; [done|].
  injection Hdag as ->. cbn.
  destruct (resources task) as [|res ress] eqn:Eres; [done|]. cbn.
  unfold terminate_cluster. run. unfold tl_stream at 1. rewrite Hh1. cbn.
  change (Z.to_nat (Z.max 1 3)) with 3%nat. cbn [teardown_loop]. run.
  rewrite Htear. cbn. unfold _launch.
  match goal with |- context [launch_loop ?f (Some 3) false 0 ?b ?w2] =>
    pose proof (launch_loop_gives_up f 3 false 0 b w2) as Hl;
    cbn zeta in Hl; change (Z.to_nat (Z.max 1 (3 - 0))) with 3%nat in Hl;
    specialize (Hl ltac:(lia) Ho);
    destruct (launch_loop f (Some 3) false 0 b w2) as [r2 w2']
  end.
  destruct Hl as (-> & Hs & Hhandle & evs & Ht & Hn & _).
  cbn in Hs, Hhandle, Ht. destruct Hs as (_ & Hdag' & _ & Hretry' & _).
  run. rewrite Hhandle. unfold tl_stream. rewrite Hh2. cbn.
  rewrite Hretry', Hretry. cbn.
  destruct fuel as [|fuel]; [lia|]. cbn [failover_loop]. run.
  rewrite Hdag'. cbn. rewrite Eres. cbn. split; [done|].
  rewrite Ht. trace_ext. cbn. rewrite count_launches_app, Hn. cbn. lia.
Qed.

End MoreRecovery.

(** ** More concrete runs *)

Section MoreSamples.
#[local] Existing Instance doubling_backoff.
#[local] Existing Instance sample_spot_utils.


(** X9, an instance: the job runs at the first poll. *)
Lemma launch_returns_timestamp_witness :
  (_launch 1 (Some 3) true
     (world_of (sample_executor FailoverStrategyExecutor false)
        healthy_oracle)).1
  = Ret (Some 1000).
Proof.
  pose proof (launch_returns_timestamp 0 job_lib.RUNNING 1000 0 (Some 3)
                true
                (world_of (sample_executor FailoverStrategyExecutor false)
                   healthy_oracle)
                eq_refl eq_refl
                ltac:(split; [done|split; [intros; lia|done]])
                eq_refl ltac:(vm_compute; lia)) as Hw.
  destruct (_launch _ _ _ _) as [r w'].
  by destruct Hw as [-> _].
Defined.

(** X12, an instance: the registry forgets the cluster after the first
    lookup. *)
Lemma terminate_cluster_twice_witness :
  ((terminate_cluster 3;; terminate_cluster 3)
     (world_of (sample_executor FailoverStrategyExecutor false)
        (lost_handle_oracle 1))).1
  = Ret tt.
Proof.
  pose proof (terminate_cluster_twice 3 3
                (world_of (sample_executor FailoverStrategyExecutor false)
                   (lost_handle_oracle 1))
                sample_handle eq_refl eq_refl eq_refl) as Hw.
  destruct ((terminate_cluster 3;; terminate_cluster 3) _) as [r w'].
  by destruct Hw as [-> _].
Defined.

(** X14, an instance: a recovery that has to try twice leaves the blocked
    regions empty. *)
Lemma failover_never_blocks_region_witness :
  _blocked_regions
    (self (recover 5
             (world_of (sample_executor FailoverStrategyExecutor true)
                late_capacity_oracle)).2)
  = ∅.
Proof.
  pose proof (failover_never_blocks_region 5
                (world_of (sample_executor FailoverStrategyExecutor true)
                   late_capacity_oracle) eq_refl) as Hw.
  destruct (recover _ _) as [r w']. cbn in *. set_solver.
Defined.

(** X17, an instance: the registry knows the cluster for two lookups. *)
Lemma failover_recover_fails_without_handle_witness :
  (recover_failover 4
     (world_of (sample_executor FailoverStrategyExecutor true)
        (lost_handle_oracle 2))).1
  = Raise (AttributeError NONE_HAS_NO_LAUNCHED_RESOURCES).
Proof.
  set (w := world_of (sample_executor FailoverStrategyExecutor true)
              (lost_handle_oracle 2)).
  assert (∃ task, head (dag (self w)) = Some task ∧ resources task ≠ [])
    as Hdag.
  { eexists. split; [reflexivity|]. discriminate. }
  assert (provisioning_fails 3 (oracle w)) as Ho.
  { intros i _. split; [reflexivity|]. by eexists. }
  pose proof (failover_recover_fails_without_handle 4 w sample_handle
                sample_handle eq_refl Hdag eq_refl eq_refl eq_refl eq_refl
                eq_refl Ho (le_n 4)) as Hw.
  destruct (recover_failover _ _) as [r w'].
  destruct Hw as [Hw _]. exact Hw.
Defined.

End MoreSamples.
